(** * Redistribution planner and executor of torch.distributed._tensor

    A shallow embedding of [torch/distributed/_tensor/_redistribute.py]:
    the transform planner ([_gen_transform_infos], [search_transform_infos],
    [reshardable_from_src_to_dst]), the executor
    ([redistribute_local_tensor]) and the autograd adapter
    ([Redistribute.forward], [Redistribute.backward]).

    Python lists are lists indexed with Python's rules (negative indices
    wrap, anything else out of range raises IndexError); exceptions are the
    [Raise] results of an error monad; the in-place updates of
    [src_placements] and [transform_infos] are threaded as explicit state;
    the placement methods that touch the local tensor (collectives and local
    slicing) are external calls of a small free monad. *)

From stdpp Require Import prelude strings sorting.

Local Open Scope Z_scope.

(** ** Exceptions and the error monad *)

Inductive exn : Type :=
  | IndexError
  | RuntimeError
  | AssertionError (msg : option string)
  | NotImplementedError
  | ZeroDivisionError
  | RecursionError.

Inductive result (A : Type) : Type :=
  | Ok (a : A)
  | Raise (e : exn).
Arguments Ok {A} a.
Arguments Raise {A} e.

#[global] Instance exn_eq_dec : EqDecision exn.
Proof. solve_decision. Defined.

#[global] Instance result_eq_dec `{EqDecision A} : EqDecision (result A).
Proof. solve_decision. Defined.

#[global] Instance result_ret : MRet result := fun _ a => Ok a.
#[global] Instance result_bind : MBind result := fun _ _ f m =>
  match m with
  | Ok a => f a
  | Raise e => Raise e
  end.

(** ** Python list access *)

(** [l[i]]: a negative index counts from the end; out of range raises. *)
Definition py_pos {A} (l : list A) (i : Z) : option nat :=
  let n := Z.of_nat (length l) in
  let j := if bool_decide (i < 0) then i + n else i in
  if bool_decide (0 ≤ j < n) then Some (Z.to_nat j) else None.

Definition py_index {A} (l : list A) (i : Z) : result A :=
  match py_pos l i with
  | Some k => match l !! k with Some x => Ok x | None => Raise IndexError end
  | None => Raise IndexError
  end.

(** [l[i] = x] on a copy of [l] (the caller threads the updated list). *)
Definition py_setitem {A} (l : list A) (i : Z) (x : A) : result (list A) :=
  match py_pos l i with
  | Some k => Ok (<[k := x]> l)
  | None => Raise IndexError
  end.

(** [enumerate(l)], positions as Python ints. *)
Fixpoint enumerate_from {A} (start : Z) (l : list A) : list (Z * A) :=
  match l with
  | [] => []
  | x :: l' => (start, x) :: enumerate_from (start + 1) l'
  end.
Definition enumerate {A} (l : list A) : list (Z * A) := enumerate_from 0 l.

(** ** Placements, device mesh, spec *)

(** Modelled from the spec: the reduction operators of [Partial]
    (placement_types.py is not part of the sources); section 3 lists
    sum, avg, max, min and product. *)
Inductive ReduceOp : Type := op_sum | op_avg | op_max | op_min | op_product.

(** Modelled from the spec: the [Placement] tagged variant of section 3,
    with structural equality; [Shard.dim] is a Python int. *)
Inductive Placement : Type :=
  | Replicate
  | Shard (dim : Z)
  | Partial (reduce_op : ReduceOp).

#[global] Instance ReduceOp_eq_dec : EqDecision ReduceOp.
Proof. solve_decision. Defined.
#[global] Instance Placement_eq_dec : EqDecision Placement.
Proof. solve_decision. Defined.

(** Modelled from the spec: the predicates [is_replicate], [is_shard],
    [is_shard_of(dim)] (Python: [is_shard(dim)]) and [is_partial]. *)
Definition is_replicate (p : Placement) : bool :=
  match p with Replicate => true | _ => false end.
Definition is_shard (p : Placement) : bool :=
  match p with Shard _ => true | _ => false end.
Definition is_shard_of (p : Placement) (dim : Z) : bool :=
  match p with Shard d => bool_decide (d = dim) | _ => false end.
Definition is_partial (p : Placement) : bool :=
  match p with Partial _ => true | _ => false end.

(** Modelled from the spec: [local_shard_size_on_dim] of section 4.1, the
    first component of its result ([//] and [%] raise on a zero divisor). *)
Definition _local_shard_size_on_dim (logical_size mesh_size coord : Z)
  : result Z :=
  if bool_decide (mesh_size = 0) then Raise ZeroDivisionError
  else
    let base := logical_size `div` mesh_size in
    let rem := logical_size `mod` mesh_size in
    Ok (base + (if bool_decide (coord < rem) then 1 else 0)).

(** Modelled from the spec: the device mesh of section 3, reduced to what
    the planner and the executor read: the size of each mesh dimension and
    the coordinate of the calling worker ([None] when it is not a member). *)
Record DeviceMesh : Type := {
  mesh_shape : list Z;
  get_coordinate : option (list Z);
}.

Definition ndim (m : DeviceMesh) : Z := Z.of_nat (length (mesh_shape m)).
Definition size (m : DeviceMesh) (mesh_dim : Z) : result Z :=
  py_index (mesh_shape m) mesh_dim.

(** Modelled from the spec: [TensorMeta] of section 3. *)
Record TensorMeta : Type := {
  shape : list Z;
  stride : list Z;
  dtype : string;
}.

(** Modelled from the spec: the [Spec] record of section 3. *)
Record DTensorSpec : Type := {
  mesh : DeviceMesh;
  placements : list Placement;
  tensor_meta : TensorMeta;
}.

#[global] Instance DeviceMesh_eq_dec : EqDecision DeviceMesh.
Proof. solve_decision. Defined.
#[global] Instance TensorMeta_eq_dec : EqDecision TensorMeta.
Proof. solve_decision. Defined.
#[global] Instance DTensorSpec_eq_dec : EqDecision DTensorSpec.
Proof. solve_decision. Defined.

(** Modelled from the spec: [num_shards], the product of [mesh.size(i)]
    over the mesh dims [i] whose placement is a shard. *)
Fixpoint num_shards_from (m : DeviceMesh) (ps : list (Z * Placement))
    (acc : Z) : result Z :=
  match ps with
  | [] => Ok acc
  | (i, p) :: ps' =>
      if is_shard p then
        n ← size m i; num_shards_from m ps' (acc * n)
      else num_shards_from m ps' acc
  end.
Definition num_shards (s : DTensorSpec) : result Z :=
  num_shards_from (mesh s) (enumerate (placements s)) 1.

(** ** The planner *)

Record _TransformInfo : Type := {
  mesh_dim : Z;
  src_dst_placements : Placement * Placement;
  logical_shape : list Z;
}.

#[global] Instance TransformInfo_eq_dec : EqDecision _TransformInfo.
Proof. solve_decision. Defined.

(** First loop of [reshardable_from_src_to_dst], over
    [reversed(range(len(current_placements)))]: [Some false] when the loop
    executes [return False], [None] when it breaks or runs to its end. *)
Fixpoint innermost_shard_scan (rev_enum : list (Z * Placement))
    (dim mesh_dim : Z) : option bool :=
  match rev_enum with
  | [] => None
  | (i, p) :: rest =>
      if is_shard_of p dim then
        if bool_decide (i ≠ mesh_dim) then Some false else None
      else innermost_shard_scan rest dim mesh_dim
  end.

(** Second loop, over [enumerate(zip(current_placements, target_placements))],
    with the two lists it appends to. *)
Fixpoint mesh_sharding_scan (enum : list (Z * (Placement * Placement)))
    (shard_dim mesh_dim : Z) (current_mesh_sharding target_mesh_sharding : list Z)
    : list Z * list Z :=
  match enum with
  | [] => (current_mesh_sharding, target_mesh_sharding)
  | (i, (s, p)) :: rest =>
      if bool_decide (mesh_dim ≤ i) then
        (current_mesh_sharding, target_mesh_sharding)
      else
        let current_mesh_sharding :=
          if is_shard_of s shard_dim then current_mesh_sharding ++ [i]
          else current_mesh_sharding in
        let target_mesh_sharding :=
          if is_shard_of p shard_dim then target_mesh_sharding ++ [i]
          else target_mesh_sharding in
        mesh_sharding_scan rest shard_dim mesh_dim
          current_mesh_sharding target_mesh_sharding
  end.

Definition reshardable_from_src_to_dst
    (current_placements target_placements : list Placement) (mesh_dim : Z)
    : result bool :=
  current ← py_index current_placements mesh_dim;
  target ← py_index target_placements mesh_dim;
  let early :=
    match current with
    | Shard dim =>
        innermost_shard_scan (reverse (enumerate current_placements))
          dim mesh_dim
    | _ => None
    end in
  match early with
  | Some b => Ok b
  | None =>
      match target with
      | Shard shard_dim =>
          let '(current_mesh_sharding, target_mesh_sharding) :=
            mesh_sharding_scan
              (enumerate (zip current_placements target_placements))
              shard_dim mesh_dim [] [] in
          Ok (bool_decide (current_mesh_sharding = target_mesh_sharding))
      | _ => Ok true
      end
  end.


(** [search_transform_infos] mutates [src_placements] and appends to
    [transform_infos]; both are returned. [search_body] is the body of the
    function, its recursive calls going through [search_transform_infos]. *)
Definition search_state : Type := list Placement * list _TransformInfo.

Definition search_body
    (search_transform_infos :
       list Placement → list Placement → Z → Z → list (list Z) →
       list _TransformInfo → bool → result search_state)
    (src_placements dst_placements : list Placement)
    (current_mesh_idx mesh_ndim : Z)
    (mesh_dims_to_logical_shape : list (list Z))
    (transform_infos : list _TransformInfo) (left_to_right : bool)
    : result search_state :=
  if bool_decide (src_placements = dst_placements) then
    Ok (src_placements, transform_infos)
  else if bool_decide (current_mesh_idx < 0 ∨ mesh_ndim ≤ current_mesh_idx)
  then Ok (src_placements, transform_infos)
  else
    src ← py_index src_placements current_mesh_idx;
    dst ← py_index dst_placements current_mesh_idx;
    reshardable ←
      reshardable_from_src_to_dst src_placements dst_placements
        current_mesh_idx;
    if reshardable : bool then
      st ← (if bool_decide (src ≠ dst) then
              shape_i ← py_index mesh_dims_to_logical_shape current_mesh_idx;
              src_placements' ← py_setitem src_placements current_mesh_idx dst;
              Ok (src_placements',
                  transform_infos ++
                    [{| mesh_dim := current_mesh_idx;
                        src_dst_placements := (src, dst);
                        logical_shape := shape_i |}])
            else Ok (src_placements, transform_infos));
      search_transform_infos st.1 dst_placements
        (if left_to_right then current_mesh_idx + 1 else current_mesh_idx - 1)
        mesh_ndim mesh_dims_to_logical_shape st.2 left_to_right
    else if negb left_to_right then
      let replica := Replicate in
      shape_i ← py_index mesh_dims_to_logical_shape current_mesh_idx;
      src_placements' ← py_setitem src_placements current_mesh_idx replica;
      search_transform_infos src_placements' dst_placements
        (current_mesh_idx - 1) mesh_ndim mesh_dims_to_logical_shape
        (transform_infos ++
           [{| mesh_dim := current_mesh_idx;
               src_dst_placements := (src, replica);
               logical_shape := shape_i |}])
        left_to_right
    else Raise RuntimeError.

(** The recursion moves [current_mesh_idx] one step towards the outside of
    [0, mesh_ndim), so [fuel] bounds the depth of the calls; running out is
    Python's RecursionError. *)
Fixpoint search_fuel (fuel : nat)
    : list Placement → list Placement → Z → Z → list (list Z) →
      list _TransformInfo → bool → result search_state :=
  match fuel with
  | O => fun _ _ _ _ _ _ _ => Raise RecursionError
  | S fuel' => search_body (search_fuel fuel')
  end.

(** Calls still to come, the present one excluded. *)
Definition visits_left (current_mesh_idx mesh_ndim : Z) (left_to_right : bool)
  : nat :=
  if bool_decide (current_mesh_idx < 0 ∨ mesh_ndim ≤ current_mesh_idx) then O
  else if left_to_right then Z.to_nat (mesh_ndim - current_mesh_idx)
  else Z.to_nat (current_mesh_idx + 1).

Definition search_transform_infos
    (src_placements dst_placements : list Placement)
    (current_mesh_idx mesh_ndim : Z)
    (mesh_dims_to_logical_shape : list (list Z))
    (transform_infos : list _TransformInfo) (left_to_right : bool)
    : result search_state :=
  search_fuel (S (visits_left current_mesh_idx mesh_ndim left_to_right))
    src_placements dst_placements current_mesh_idx mesh_ndim
    mesh_dims_to_logical_shape transform_infos left_to_right.

(** The loop of [_gen_transform_infos] that builds
    [mesh_dims_to_logical_shape], over
    [enumerate(zip(src_placements, dst_placements))]. *)
Fixpoint logical_shape_loop (device_mesh : DeviceMesh) (my_coordinate : list Z)
    (enum : list (Z * (Placement * Placement)))
    (mesh_dims_to_logical_shape : list (list Z)) : result (list (list Z)) :=
  match enum with
  | [] => Ok mesh_dims_to_logical_shape
  | (i, (src, dst)) :: rest =>
      current_logical_shape ← py_index mesh_dims_to_logical_shape i;
      match src with
      | Shard dim =>
          if bool_decide (i < ndim device_mesh - 1) then
            mesh_dim_size ← size device_mesh i;
            size_on_dim ← py_index current_logical_shape dim;
            coord ← py_index my_coordinate i;
            local_shard_size ←
              _local_shard_size_on_dim size_on_dim mesh_dim_size coord;
            new_logical_shape ←
              py_setitem current_logical_shape dim local_shard_size;
            logical_shape_loop device_mesh my_coordinate rest
              (mesh_dims_to_logical_shape ++ [new_logical_shape])
          else
            logical_shape_loop device_mesh my_coordinate rest
              mesh_dims_to_logical_shape
      | _ =>
          logical_shape_loop device_mesh my_coordinate rest
            (mesh_dims_to_logical_shape ++ [current_logical_shape])
      end
  end.

(** [lru_cache] only memoizes: the result is a function of the two specs
    (the mesh of [src_spec] carries the worker's coordinate) and the cached
    list is never mutated by its readers. *)
Definition _gen_transform_infos (src_spec dst_spec : DTensorSpec)
    : result (list _TransformInfo) :=
  let device_mesh := mesh src_spec in
  match get_coordinate device_mesh with
  | None => Raise (AssertionError None)
  | Some my_coordinate =>
      let initial_logical_shape := shape (tensor_meta src_spec) in
      if bool_decide (ndim device_mesh = 1) then
        src0 ← py_index (placements src_spec) 0;
        dst0 ← py_index (placements dst_spec) 0;
        Ok [{| mesh_dim := 0;
               src_dst_placements := (src0, dst0);
               logical_shape := initial_logical_shape |}]
      else
        let src_placements := placements src_spec in
        let dst_placements := placements dst_spec in
        mesh_dims_to_logical_shape ←
          logical_shape_loop device_mesh my_coordinate
            (enumerate (zip src_placements dst_placements))
            [initial_logical_shape];
        shards ← num_shards src_spec;
        st ← (if bool_decide (1 < shards) then
                search_transform_infos src_placements dst_placements
                  (ndim device_mesh - 1) (ndim device_mesh)
                  mesh_dims_to_logical_shape [] false
              else Ok (src_placements, []));
        st' ← search_transform_infos st.1 dst_placements
                0 (ndim device_mesh) mesh_dims_to_logical_shape st.2 true;
        Ok st'.2
  end.

(** The [(mesh_dim, from, to)] part of a step. *)
Definition step_triple (t : _TransformInfo) : Z * Placement * Placement :=
  (mesh_dim t, (src_dst_placements t).1, (src_dst_placements t).2).

Definition plan_triples (plan : result (list _TransformInfo))
  : result (list (Z * Placement * Placement)) :=
  match plan with
  | Ok steps => Ok (map step_triple steps)
  | Raise e => Raise e
  end.

Definition mk_mesh (sizes : list Z) (coord : option (list Z)) : DeviceMesh :=
  {| mesh_shape := sizes; get_coordinate := coord |}.
Definition mk_spec (m : DeviceMesh) (ps : list Placement) (shp : list Z)
  : DTensorSpec :=
  {| mesh := m; placements := ps;
     tensor_meta := {| shape := shp; stride := []; dtype := "float32" |} |}.


(** ** The executor *)

(** Modelled from the spec: the methods of [Shard] and [Partial] that act
    on the local tensor (section 4.1) and the [wait] of a future-tensor
    (section 6). They live outside [_redistribute.py]; each is an external
    call, recorded with its receiver and arguments. *)
Inductive placement_call (tensor : Type) : Type :=
  | _reduce_value (self : Placement) (t : tensor) (m : DeviceMesh) (i : Z)
  | _reduce_shard_value (self : Placement) (t : tensor) (m : DeviceMesh)
      (i : Z) (shard_spec : Placement)
  | _to_replicate_tensor (self : Placement) (t : tensor) (m : DeviceMesh)
      (i : Z) (current_logical_shape : list Z)
  | _replicate_to_shard (self : Placement) (t : tensor) (m : DeviceMesh)
      (i : Z) (shard_index : Z)
  | _to_new_shard_dim (self : Placement) (t : tensor) (m : DeviceMesh)
      (i : Z) (current_logical_shape : list Z) (new_shard_dim : Z)
  | _partition_value (self : Placement) (t : tensor) (m : DeviceMesh) (i : Z)
  | wait (t : tensor).
Arguments _reduce_value {tensor}.
Arguments _reduce_shard_value {tensor}.
Arguments _to_replicate_tensor {tensor}.
Arguments _replicate_to_shard {tensor}.
Arguments _to_new_shard_dim {tensor}.
Arguments _partition_value {tensor}.
Arguments wait {tensor}.

(** Programs over those calls: return, raise, or call and continue with the
    tensor the call gives back. *)
Inductive prog (tensor A : Type) : Type :=
  | Ret (a : A)
  | Throw (e : exn)
  | Call (c : placement_call tensor) (k : tensor → prog tensor A).
Arguments Ret {tensor A} a.
Arguments Throw {tensor A} e.
Arguments Call {tensor A} c k.

Fixpoint prog_bind_def {tensor A B} (f : A → prog tensor B)
    (m : prog tensor A) : prog tensor B :=
  match m with
  | Ret a => f a
  | Throw e => Throw e
  | Call c k => Call c (fun t => prog_bind_def f (k t))
  end.
#[global] Instance prog_ret {tensor} : MRet (prog tensor) := fun _ a => Ret a.
#[global] Instance prog_bind {tensor} : MBind (prog tensor) :=
  fun _ _ f m => prog_bind_def f m.

Definition lift {tensor A} (r : result A) : prog tensor A :=
  match r with
  | Ok a => Ret a
  | Raise e => Throw e
  end.
Definition call {tensor} (c : placement_call tensor) : prog tensor tensor :=
  Call c Ret.
(** [new_local_tensor = <call>] *)
Definition assign {tensor} (c : placement_call tensor)
  : prog tensor (option tensor) :=
  Call c (fun t => Ret (Some t)).

(** What a program invokes: [calls_nothing] holds of a program that returns
    or raises without any external call ([returns m a]: some answers of the
    calls make [m] return [a]). *)
Definition calls_nothing {tensor A} (m : prog tensor A) : Prop :=
  match m with
  | Call _ _ => False
  | _ => True
  end.

Inductive returns {tensor A} : prog tensor A → A → Prop :=
  | returns_Ret a : returns (Ret a) a
  | returns_Call c k t a : returns (k t) a → returns (Call c k) a.

(** Modelled from the spec: a DTensor is a local shard with its spec, and
    the autograd flag the operator copies over. *)
Record DTensor (tensor : Type) : Type := {
  _local_tensor : tensor;
  _spec : DTensorSpec;
  requires_grad : bool;
}.
Arguments _local_tensor {tensor}.
Arguments _spec {tensor}.
Arguments requires_grad {tensor}.

(** What [Redistribute.forward] saves on [ctx]. *)
Record Ctx : Type := {
  ctx_current_spec : DTensorSpec;
  ctx_async_op : bool;
}.

Section Executor.
Context {tensor : Type}.
(** [isinstance(t, funcol.AsyncCollectiveTensor)] *)
Context (is_async_collective_tensor : tensor → bool).

(** One iteration of the loop of [redistribute_local_tensor] over
    [transform_infos]; the state is [(local_tensor, new_local_tensor)],
    [new_local_tensor] being [None] until it is first assigned. *)
Definition redistribute_step (device_mesh : DeviceMesh)
    (my_coordinate : list Z) (is_backward : bool)
    (transform_info : _TransformInfo)
    (local_tensor : tensor) (new_local_tensor : option tensor)
    : prog tensor (tensor * option tensor) :=
  let i := mesh_dim transform_info in
  let '(current, target) := src_dst_placements transform_info in
  num_chunks ← lift (size device_mesh i);
  if bool_decide (current = target) then
    (* continue *)
    Ret (local_tensor, Some local_tensor)
  else
    new_local_tensor ←
      match target with
      | Replicate =>
          match current with
          | Partial _ =>
              assign (_reduce_value current local_tensor device_mesh i)
          | Shard _ =>
              assign (_to_replicate_tensor current local_tensor
                      device_mesh i (logical_shape transform_info))
          | Replicate => Throw RuntimeError
          end
      | Shard target_dim =>
          match current with
          | Partial _ =>
              assign (_reduce_shard_value current local_tensor
                      device_mesh i target)
          | Replicate =>
              coord ← lift (py_index my_coordinate i);
              assign (_replicate_to_shard target local_tensor
                      device_mesh i coord)
          | Shard shard_dim =>
              if bool_decide (shard_dim ≠ target_dim) then
                assign (_to_new_shard_dim current local_tensor
                        device_mesh i (logical_shape transform_info)
                        target_dim)
              else Ret new_local_tensor
          end
      | Partial _ =>
          match current with
          | Replicate =>
              if negb is_backward then
                assign (_partition_value target local_tensor
                        device_mesh i)
              else Ret (Some local_tensor)
          | Shard _ =>
              if negb is_backward then Throw RuntimeError
              else
                assign (_to_replicate_tensor current local_tensor
                        device_mesh i (logical_shape transform_info))
          | Partial _ => Ret (Some local_tensor)
          end
      end;
    match new_local_tensor with
    | None => Throw (AssertionError None)
    | Some t => Ret (t, Some t)
    end.

Fixpoint redistribute_loop (device_mesh : DeviceMesh)
    (my_coordinate : list Z) (is_backward : bool)
    (transform_infos : list _TransformInfo)
    (local_tensor : tensor) (new_local_tensor : option tensor)
    : prog tensor (option tensor) :=
  match transform_infos with
  | [] => Ret new_local_tensor
  | transform_info :: rest =>
      st ← redistribute_step device_mesh my_coordinate is_backward
             transform_info local_tensor new_local_tensor;
      redistribute_loop device_mesh my_coordinate is_backward rest st.1 st.2
  end.

Definition redistribute_local_tensor (local_tensor : tensor)
    (current_spec target_spec : DTensorSpec) (async_op is_backward : bool)
    : prog tensor tensor :=
  if bool_decide (mesh current_spec ≠ mesh target_spec) then
    Throw NotImplementedError
  else
    let device_mesh := mesh current_spec in
    match get_coordinate device_mesh with
    | None => Ret local_tensor
    | Some my_coordinate =>
        transform_infos ← lift (_gen_transform_infos current_spec target_spec);
        new_local_tensor ←
          redistribute_loop device_mesh my_coordinate is_backward
            transform_infos local_tensor None;
        match new_local_tensor with
        | None => Throw (AssertionError (Some "redistribute failed!"))
        | Some t =>
            if negb async_op && is_async_collective_tensor t
            then call (wait t)
            else Ret t
        end
    end.

(** [Redistribute.forward]: returns the saved [ctx] and the output. *)
Definition Redistribute_forward (input : DTensor tensor)
    (device_mesh : DeviceMesh) (placements' : list Placement)
    (async_op : bool) : prog tensor (Ctx * DTensor tensor) :=
  let current_spec := _spec input in
  let ctx := {| ctx_current_spec := current_spec;
                ctx_async_op := async_op |} in
  st ← (if bool_decide (placements current_spec ≠ placements') then
          let target_spec :=
            {| mesh := device_mesh; placements := placements';
               tensor_meta := tensor_meta (_spec input) |} in
          let local_tensor := _local_tensor input in
          output ← redistribute_local_tensor local_tensor current_spec
                     target_spec async_op false;
          Ret (output, target_spec)
        else Ret (_local_tensor input, current_spec));
  Ret (ctx, {| _local_tensor := st.1; _spec := st.2;
               requires_grad := requires_grad input |}).

(** The loop of [Redistribute.backward] that builds
    [normalized_placements]. *)
Fixpoint normalize_placements (previous_placements : list Placement)
    (normalized_placements : list Placement) : list Placement :=
  match previous_placements with
  | [] => normalized_placements
  | previous_placement :: rest =>
      if is_partial previous_placement then
        normalize_placements rest (normalized_placements ++ [Replicate])
      else
        normalize_placements rest
          (normalized_placements ++ [previous_placement])
  end.

(** [Redistribute.backward]: the first component of the returned tuple
    (the other three are [None]). [grad_output.shape], [.stride()] and
    [.dtype] are those of the tensor metadata of its spec. *)
Definition Redistribute_backward (ctx : Ctx) (grad_output : DTensor tensor)
    : prog tensor (DTensor tensor) :=
  let previous_spec := ctx_current_spec ctx in
  let current_spec := _spec grad_output in
  let async_op := ctx_async_op ctx in
  let local_tensor := _local_tensor grad_output in
  output ← redistribute_local_tensor local_tensor current_spec previous_spec
             async_op true;
  let normalized_placements :=
    normalize_placements (placements previous_spec) [] in
  let spec :=
    {| mesh := mesh previous_spec;
       placements := normalized_placements;
       tensor_meta :=
         {| shape := shape (tensor_meta (_spec grad_output));
            stride := stride (tensor_meta (_spec grad_output));
            dtype := dtype (tensor_meta (_spec grad_output)) |} |} in
  Ret {| _local_tensor := output; _spec := spec;
         requires_grad := requires_grad grad_output |}.
End Executor.

(** * Specification-side definitions *)

(** ** Well-formed inputs (the invariants of section 3 of the spec) *)

(** One placement per mesh dim, and every sharded tensor dim is a dimension
    of the global shape. *)
Definition spec_wf (s : DTensorSpec) : Prop :=
  length (placements s) = length (mesh_shape (mesh s)) ∧
  Forall (fun p => ∀ d, p = Shard d →
            0 ≤ d < Z.of_nat (length (shape (tensor_meta s))))
         (placements s).

(** [c] is the coordinate of a member of the mesh. *)
Definition in_mesh (m : DeviceMesh) (c : list Z) : Prop :=
  Forall2 (fun ci n => 0 ≤ ci < n) c (mesh_shape m).

(** ** Reading a plan as transitions on the placement tuple *)

(** A step [(mesh_dim = i, from, to)]: the placement at mesh dim [i],
    currently equal to [from], becomes [to]; [None] when it is not. *)
Definition apply_step (cur : list Placement) (t : _TransformInfo)
  : option (list Placement) :=
  if bool_decide (0 ≤ mesh_dim t) then
    match cur !! Z.to_nat (mesh_dim t) with
    | Some p =>
        if bool_decide (p = (src_dst_placements t).1)
        then Some (<[Z.to_nat (mesh_dim t) := (src_dst_placements t).2]> cur)
        else None
    | None => None
    end
  else None.

Fixpoint apply_steps (steps : list _TransformInfo) (cur : list Placement)
  : option (list Placement) :=
  match steps with
  | [] => Some cur
  | t :: rest =>
      match apply_step cur t with
      | Some cur' => apply_steps rest cur'
      | None => None
      end
  end.

(** ** The skip rule of the inner-to-outer pass, as the spec words it *)


(** ** The reshardability predicate, as the spec words it *)

(** [j] is the last mesh dim whose placement in [cur] is [Shard d]. *)
Definition last_shard_of (cur : list Placement) (d : Z) (j : nat) : Prop :=
  cur !! j = Some (Shard d) ∧ ∀ k, (j < k)%nat → cur !! k ≠ Some (Shard d).

(** [cur[i]] is [Shard d] for some [d], and the last mesh dim whose
    placement is [Shard d] is not [i]. *)
Definition outer_nested_shard (cur : list Placement) (i : nat) : Prop :=
  ∃ d j, cur !! i = Some (Shard d) ∧ last_shard_of cur d j ∧ j ≠ i.

(** [j] belongs to the set of mesh dims smaller than [i] whose placement
    in [ps] shards tensor dim [d]. *)
Definition shards_before (ps : list Placement) (d : Z) (i j : nat) : Prop :=
  (j < i)%nat ∧ ps !! j = Some (Shard d).

(** ** The same specs seen from another worker *)

(** [s] as the worker at coordinate [c] holds it: the mesh is the same
    grid, [get_coordinate()] answers [c]. *)
Definition at_coordinate (c : list Z) (s : DTensorSpec) : DTensorSpec :=
  {| mesh := {| mesh_shape := mesh_shape (mesh s); get_coordinate := Some c |};
     placements := placements s;
     tensor_meta := tensor_meta s |}.

(** Two results agree: both raise the same exception, or both return, and
    the values returned are related. *)
Definition result_rel {A B} (R : A → B → Prop) (r1 : result A) (r2 : result B)
  : Prop :=
  match r1, r2 with
  | Ok a, Ok b => R a b
  | Raise e1, Raise e2 => e1 = e2
  | _, _ => False
  end.

Definition same_triples (infos1 infos2 : list _TransformInfo) : Prop :=
  map step_triple infos1 = map step_triple infos2.

Definition same_lengths (L1 L2 : list (list Z)) : Prop :=
  Forall2 (fun a b : list Z => length a = length b) L1 L2.

Definition same_search_state (st1 st2 : search_state) : Prop :=
  st1.1 = st2.1 ∧ same_triples st1.2 st2.2.

(** ** The normalization of the backward pass, as the spec words it *)

(** [p] is what the normalization makes of [previous_placement]:
    [Replicate] for a [Partial], the placement itself otherwise. *)
Definition normalized (previous_placement p : Placement) : Prop :=
  (is_partial previous_placement = true → p = Replicate) ∧
  (is_partial previous_placement = false → p = previous_placement).


(** ** The specs of scenario S3, on the worker at coordinate [c] *)

Definition S3_src (c : list Z) : DTensorSpec :=
  mk_spec (mk_mesh [2; 2] (Some c)) [Shard 0; Shard 0] [4; 4].
Definition S3_dst (c : list Z) : DTensorSpec :=
  mk_spec (mk_mesh [2; 2] (Some c)) [Replicate; Shard 0] [4; 4].

(** ** A DTensor on a 1-dimensional mesh of two workers *)

Definition dtensor_1d (ps : list Placement) : DTensor nat :=
  {| _local_tensor := 7%nat;
     _spec := mk_spec (mk_mesh [2] (Some [0])) ps [4; 4];
     requires_grad := true |}.

(** ** Shapes of plans and of placement tuples *)

(** No tensor dim is sharded by two mesh dims of [ps]. *)
Definition no_nested_shard (ps : list Placement) : Prop :=
  ∀ (i j : nat) d, i ≠ j →
    ps !! i = Some (Shard d) → ps !! j = Some (Shard d) → False.

(** Below mesh dim [i], [cur] and [dst] shard tensor dim [d] at the same
    mesh dims. *)
Definition agree_below (cur dst : list Placement) (d : Z) (i : nat) : Prop :=
  ∀ j : nat, (j < i)%nat →
    (cur !! j = Some (Shard d) ↔ dst !! j = Some (Shard d)).

(** What a step of a pass started at [idx] looks like: its mesh dim is a
    mesh dim the pass had still to visit, its target is [Replicate] (only
    from inside out) or the destination placement of that mesh dim, and its
    logical shape is the entry of [shapes] for that mesh dim. *)
Definition step_of_pass (dst : list Placement) (mesh_ndim : Z)
    (shapes : list (list Z)) (ltr : bool) (idx : Z) (t : _TransformInfo)
  : Prop :=
  0 ≤ mesh_dim t < mesh_ndim
  ∧ (if ltr then idx ≤ mesh_dim t else mesh_dim t ≤ idx)
  ∧ ((ltr = false ∧ (src_dst_placements t).2 = Replicate)
     ∨ py_index dst (mesh_dim t) = Ok (src_dst_placements t).2)
  ∧ py_index shapes (mesh_dim t) = Ok (logical_shape t).

(** The mesh dims of the steps of one pass, in the order of the traversal. *)
Definition pass_order (ltr : bool) (dims : list Z) : Prop :=
  if ltr then StronglySorted Z.lt dims else StronglySorted Z.gt dims.

(** What the inner-to-outer pass keeps true of the mesh dims it has
    visited (those above [idx]): a visited mesh dim that shards tensor dim
    [d] is the only visited one to do so, and on the mesh dims still to
    visit [cur] shards [d] exactly where [dst] does. *)
Definition visited_ok (cur dst : list Placement) (idx : Z) : Prop :=
  ∀ (j : nat) d, idx < Z.of_nat j → cur !! j = Some (Shard d) →
    (∀ k : nat, Z.of_nat k ≤ idx →
       (cur !! k = Some (Shard d) ↔ dst !! k = Some (Shard d)))
    ∧ (∀ j' : nat, idx < Z.of_nat j' → j' ≠ j → cur !! j' ≠ Some (Shard d)).

(** From mesh dim [idx] inwards, no tensor dim is sharded twice. *)
Definition no_nested_from (cur : list Placement) (idx : Z) : Prop :=
  ∀ (i j : nat) d, idx ≤ Z.of_nat i → (i < j)%nat →
    cur !! i = Some (Shard d) → cur !! j = Some (Shard d) → False.

(** ** Programs that raise nothing of their own *)

(** Whatever the external calls give back, the program ends in a return. *)
Inductive never_throws {tensor A} : prog tensor A → Prop :=
  | never_throws_Ret a : never_throws (Ret a)
  | never_throws_Call c k :
      (∀ t, never_throws (k t)) → never_throws (Call c k).

(** ** The direct plan *)

(** One triple [(i, src[i], dst[i])] for each mesh dim, counted from [i],
    where the two tuples differ, outermost first. *)
Fixpoint direct_triples (i : Z) (src dst : list Placement)
  : list (Z * Placement * Placement) :=
  match src, dst with
  | p :: src', q :: dst' =>
      (if bool_decide (p ≠ q) then [(i, p, q)] else [])
      ++ direct_triples (i + 1) src' dst'
  | _, _ => []
  end.

(** ** More concrete inputs *)

(** The plan of scenario S3 on the worker at coordinate (1, 0). *)
Definition S3_plan : list _TransformInfo :=
  [ {| mesh_dim := 1; src_dst_placements := (Shard 0, Replicate);
       logical_shape := [2; 4] |};
    {| mesh_dim := 0; src_dst_placements := (Shard 0, Replicate);
       logical_shape := [4; 4] |};
    {| mesh_dim := 1; src_dst_placements := (Replicate, Shard 0);
       logical_shape := [2; 4] |} ].

(** Specs on a 1x1 mesh: a nested shard that makes one shard in all. *)
Definition unit_mesh_spec (ps : list Placement) : DTensorSpec :=
  mk_spec (mk_mesh [1; 1] (Some [0; 0])) ps [4; 4].

(** Specs on the 2x2 mesh, on the worker at coordinate (0, 1). *)
Definition spec_2x2 (ps : list Placement) : DTensorSpec :=
  mk_spec (mk_mesh [2; 2] (Some [0; 1])) ps [4; 4].

Definition dtensor_2x2 (ps : list Placement) : DTensor nat :=
  {| _local_tensor := 7%nat; _spec := spec_2x2 ps; requires_grad := true |}.

(** * Properties *)

(** ** Sanity checks on the scenarios of the spec *)

Example reshardable_nested_inner :
  reshardable_from_src_to_dst [Shard 0; Shard 0] [Replicate; Shard 0] 1
  = Ok false.
Proof. reflexivity. Qed.

Example reshardable_nested_outer :
  reshardable_from_src_to_dst [Shard 0; Shard 0] [Replicate; Shard 0] 0
  = Ok false.
Proof. reflexivity. Qed.
Example plan_S3 :
  _gen_transform_infos
    (mk_spec (mk_mesh [2; 2] (Some [1; 0])) [Shard 0; Shard 0] [4; 4])
    (mk_spec (mk_mesh [2; 2] (Some [1; 0])) [Replicate; Shard 0] [4; 4])
  = Ok [ {| mesh_dim := 1; src_dst_placements := (Shard 0, Replicate);
            logical_shape := [2; 4] |};
         {| mesh_dim := 0; src_dst_placements := (Shard 0, Replicate);
            logical_shape := [4; 4] |};
         {| mesh_dim := 1; src_dst_placements := (Replicate, Shard 0);
            logical_shape := [2; 4] |} ].
Proof. vm_compute. reflexivity. Qed.

Example plan_S6 :
  plan_triples (_gen_transform_infos
    (mk_spec (mk_mesh [2; 2] (Some [0; 1])) [Replicate; Shard 0] [8])
    (mk_spec (mk_mesh [2; 2] (Some [0; 1])) [Shard 0; Replicate] [8]))
  = Ok [ (1, Shard 0, Replicate); (0, Replicate, Shard 0) ].
Proof. vm_compute. reflexivity. Qed.

(** ** Python indexing at a position in range *)

Lemma py_pos_nat {A} (l : list A) (i : nat) :
  (i < length l)%nat → py_pos l (Z.of_nat i) = Some i.
Proof.
  intros Hi. unfold py_pos. cbn zeta.
  rewrite (bool_decide_eq_false_2 (Z.of_nat i < 0)) by lia.
  rewrite bool_decide_eq_true_2 by lia.
  now rewrite Nat2Z.id.
Qed.

Lemma py_index_lookup {A} (l : list A) (i : nat) (x : A) :
  l !! i = Some x → py_index l (Z.of_nat i) = Ok x.
Proof.
  intros Hx. unfold py_index.
  rewrite py_pos_nat by (eapply lookup_lt_Some; eauto).
  now rewrite Hx.
Qed.

Lemma py_setitem_nat {A} (l : list A) (i : nat) (x : A) :
  (i < length l)%nat → py_setitem l (Z.of_nat i) x = Ok (<[i := x]> l).
Proof. intros Hi. unfold py_setitem. now rewrite py_pos_nat. Qed.

Lemma py_pos_lt {A} (l : list A) (i : Z) (k : nat) :
  py_pos l i = Some k → (k < length l)%nat.
Proof.
  unfold py_pos. cbn zeta. intros H.
  destruct (bool_decide (i < 0)); case_bool_decide; try discriminate;
    injection H as <-; lia.
Qed.

Lemma py_pos_nonneg {A} (l : list A) (i : Z) (k : nat) :
  0 ≤ i → py_pos l i = Some k → i = Z.of_nat k.
Proof.
  unfold py_pos. cbn zeta. intros Hi H.
  rewrite (bool_decide_eq_false_2 (i < 0)) in H by lia.
  case_bool_decide; [|discriminate]. injection H as <-. lia.
Qed.

Lemma py_index_Ok {A} (l : list A) (i : Z) (x : A) :
  py_index l i = Ok x → ∃ k, py_pos l i = Some k ∧ l !! k = Some x.
Proof.
  unfold py_index. destruct (py_pos l i) as [k|]; [|discriminate].
  destruct (l !! k) as [y|] eqn:Hy; [|discriminate].
  intros [= <-]. eauto.
Qed.

Lemma in_mesh_lookup m c (i : nat) :
  in_mesh m c → (i < length (mesh_shape m))%nat →
  ∃ ci n, c !! i = Some ci ∧ mesh_shape m !! i = Some n ∧ 0 ≤ ci < n.
Proof.
  intros Hin Hi.
  destruct (lookup_lt_is_Some_2 (mesh_shape m) i Hi) as [n Hn].
  destruct (Forall2_lookup_r _ _ _ _ _ Hin Hn) as (ci & Hci & Hr).
  eauto.
Qed.

Lemma logical_shape_loop_ok m c rank zs : ∀ (i : nat) L,
  in_mesh m c →
  length L = S i →
  Forall (fun s => length s = rank) L →
  Forall (fun sp : Placement * Placement =>
            ∀ d, sp.1 = Shard d → 0 ≤ d < Z.of_nat rank) zs →
  (i + length zs ≤ length (mesh_shape m))%nat →
  ∃ L', logical_shape_loop m c (enumerate_from (Z.of_nat i) zs) L = Ok L'.
Proof.
  induction zs as [|[src dst] rest IH]; intros i L Hin HL Hrank Hz Hlen.
  - cbn. eauto.
  - cbn [enumerate_from logical_shape_loop].
    destruct (lookup_lt_is_Some_2 L i ltac:(lia)) as [cur Hcur].
    rewrite (py_index_lookup _ _ _ Hcur). cbn [mbind result_bind].
    assert (Hcurlen : length cur = rank)
      by (eapply Forall_lookup_1 in Hrank; eauto).
    apply Forall_cons in Hz as [Hsrc Hz]. cbn [length] in Hlen.
    assert (Hnext : Z.of_nat i + 1 = Z.of_nat (S i)) by lia.
    destruct src as [|d|op].
    + rewrite Hnext. apply IH; auto.
      * rewrite length_app. cbn. lia.
      * apply Forall_app. split; auto.
      * lia.
    + case_bool_decide as Hlast.
      * destruct (in_mesh_lookup m c i Hin ltac:(lia)) as (ci & n & Hci & Hn & Hr).
        unfold size. rewrite (py_index_lookup _ _ _ Hn). cbn [mbind result_bind].
        specialize (Hsrc d eq_refl).
        assert (Hd : Z.of_nat (Z.to_nat d) = d) by lia.
        destruct (lookup_lt_is_Some_2 cur (Z.to_nat d) ltac:(lia)) as [sz Hsz].
        rewrite <- Hd. rewrite (py_index_lookup _ _ _ Hsz). cbn [mbind result_bind].
        rewrite (py_index_lookup _ _ _ Hci). cbn [mbind result_bind].
        unfold _local_shard_size_on_dim.
        rewrite bool_decide_eq_false_2 by lia. cbn [mbind result_bind].
        rewrite py_setitem_nat by lia. cbn [mbind result_bind].
        rewrite Hnext. apply IH; auto.
        -- rewrite length_app. cbn. lia.
        -- apply Forall_app. split; auto. constructor; auto.
           now rewrite length_insert.
        -- lia.
      * unfold ndim in Hlast. destruct rest; [|cbn in Hlen; lia].
        cbn. eauto.
    + rewrite Hnext. apply IH; auto.
      * rewrite length_app. cbn. lia.
      * apply Forall_app. split; auto.
      * lia.
Qed.

Lemma num_shards_from_ok m ps : ∀ (i : nat) acc,
  (i + length ps ≤ length (mesh_shape m))%nat →
  ∃ n, num_shards_from m (enumerate_from (Z.of_nat i) ps) acc = Ok n.
Proof.
  induction ps as [|p ps IH]; intros i acc Hlen; cbn [enumerate_from num_shards_from].
  - eauto.
  - cbn [length] in Hlen.
    replace (Z.of_nat i + 1) with (Z.of_nat (S i)) by lia.
    destruct (is_shard p).
    + destruct (lookup_lt_is_Some_2 (mesh_shape m) i ltac:(lia)) as [n Hn].
      unfold size. rewrite (py_index_lookup _ _ _ Hn). cbn [mbind result_bind].
      apply IH. lia.
    + apply IH. lia.
Qed.

(** ** The search satisfies the recursive equation of the Python function *)

Lemma visits_left_step idx mesh_ndim ltr :
  ¬ (idx < 0 ∨ mesh_ndim ≤ idx) →
  visits_left idx mesh_ndim ltr
  = S (visits_left (if ltr then idx + 1 else idx - 1) mesh_ndim ltr).
Proof.
  intros Hin. unfold visits_left.
  rewrite (bool_decide_eq_false_2 _ Hin).
  destruct ltr; case_bool_decide; lia.
Qed.

Lemma search_transform_infos_unfold src dst idx mesh_ndim shapes infos ltr :
  search_transform_infos src dst idx mesh_ndim shapes infos ltr
  = search_body search_transform_infos src dst idx mesh_ndim shapes infos ltr.
Proof.
  unfold search_transform_infos at 1. cbn [search_fuel]. unfold search_body.
  destruct (bool_decide (src = dst)); [reflexivity|].
  case_bool_decide as Hin; [reflexivity|].
  pose proof (visits_left_step idx mesh_ndim ltr Hin) as Hstep.
  pose proof (visits_left_step idx mesh_ndim false Hin) as Hstep'.
  cbn beta iota in Hstep'.
  destruct (py_index src idx) as [p|]; [|reflexivity].
  destruct (py_index dst idx) as [q|]; [|reflexivity].
  destruct (reshardable_from_src_to_dst src dst idx) as [[|]|]; cbn;
    [| |reflexivity].
  - destruct (bool_decide (p ≠ q)); cbn.
    + destruct (py_index shapes idx); [|reflexivity].
      destruct (py_setitem src idx q); [|reflexivity]. cbn.
      unfold search_transform_infos. now rewrite Hstep.
    + unfold search_transform_infos. now rewrite Hstep.
  - destruct ltr; [reflexivity|]. cbn.
    destruct (py_index shapes idx); [|reflexivity].
    destruct (py_setitem src idx Replicate); [|reflexivity]. cbn.
    unfold search_transform_infos. now rewrite Hstep'.
Qed.

Lemma search_same_placements ps idx mesh_ndim shapes infos ltr :
  search_transform_infos ps ps idx mesh_ndim shapes infos ltr = Ok (ps, infos).
Proof.
  rewrite search_transform_infos_unfold. unfold search_body.
  now rewrite bool_decide_eq_true_2.
Qed.

Lemma search_out_of_range src dst idx mesh_ndim shapes infos ltr :
  idx < 0 ∨ mesh_ndim ≤ idx →
  search_transform_infos src dst idx mesh_ndim shapes infos ltr
  = Ok (src, infos).
Proof.
  intros Hout. rewrite search_transform_infos_unfold. unfold search_body.
  rewrite (bool_decide_eq_true_2 _ Hout). now destruct (bool_decide _).
Qed.

Lemma apply_steps_app steps1 steps2 cur cur' :
  apply_steps steps1 cur = Some cur' →
  apply_steps (steps1 ++ steps2) cur = apply_steps steps2 cur'.
Proof.
  revert cur. induction steps1 as [|t rest IH]; intros cur; cbn.
  - now intros [= ->].
  - destruct (apply_step cur t) as [cur1|]; [|discriminate]. apply IH.
Qed.

Lemma apply_step_emitted cur (k : nat) p q shp :
  cur !! k = Some p →
  apply_step cur {| mesh_dim := Z.of_nat k; src_dst_placements := (p, q);
                    logical_shape := shp |}
  = Some (<[k := q]> cur).
Proof.
  intros Hp. unfold apply_step. cbn.
  rewrite bool_decide_eq_true_2 by lia. rewrite Nat2Z.id, Hp.
  now rewrite bool_decide_eq_true_2.
Qed.

(** What one call of [search_transform_infos] does to its two lists: it
    appends steps, each applicable in turn to the placements as they stand,
    and leaves [src_placements] as the result of applying them. Every step
    is on a mesh dim the traversal had not passed yet. *)
Lemma search_sound dst mesh_ndim shapes ltr (n : nat) :
  ∀ cur idx infos cur' infos',
    (visits_left idx mesh_ndim ltr ≤ n)%nat →
    search_transform_infos cur dst idx mesh_ndim shapes infos ltr
    = Ok (cur', infos') →
    ∃ new, infos' = infos ++ new
      ∧ apply_steps new cur = Some cur'
      ∧ Forall (fun t => if ltr then idx ≤ mesh_dim t else mesh_dim t ≤ idx)
          new.
Proof.
  induction n as [|n IH]; intros cur idx infos cur' infos' Hn;
    rewrite search_transform_infos_unfold; unfold search_body.
  all: case_bool_decide as Heq;
    [intros [= <- <-]; exists []; now rewrite app_nil_r|].
  all: case_bool_decide as Hout;
    [intros [= <- <-]; exists []; now rewrite app_nil_r|].
  { rewrite (visits_left_step _ _ _ Hout) in Hn. lia. }
  rewrite (visits_left_step _ _ _ Hout) in Hn.
  destruct (py_index cur idx) as [p|] eqn:Hp; [|discriminate].
  destruct (py_index_Ok _ _ _ Hp) as (k & Hk & Hpk).
  assert (Hidx : 0 ≤ idx) by lia.
  pose proof (py_pos_nonneg _ _ _ Hidx Hk) as ->.
  pose proof (py_pos_lt _ _ _ Hk) as Hklt.
  destruct (py_index dst (Z.of_nat k)) as [q|]; [|discriminate].
  destruct (reshardable_from_src_to_dst cur dst (Z.of_nat k)) as [[|]|];
    cbn [mbind result_bind]; [| |discriminate].
  - case_bool_decide as Hpq; cbn [mbind result_bind].
    + destruct (py_index shapes (Z.of_nat k)) as [shp|]; [|discriminate].
      rewrite py_setitem_nat by assumption. cbn [mbind result_bind fst snd].
      intros Hrec. apply IH in Hrec as (new & -> & Happ & Hdims); [|lia].
      eexists (_ :: new). split; [now rewrite <- app_assoc|]. split.
      * cbn [apply_steps]. now rewrite (apply_step_emitted _ _ _ _ _ Hpk).
      * constructor; [cbn; destruct ltr; lia|].
        eapply Forall_impl; [exact Hdims|]. cbn. intros t. destruct ltr; lia.
    + cbn [fst snd]. intros Hrec.
      apply IH in Hrec as (new & -> & Happ & Hdims); [|lia].
      exists new. split; [reflexivity|]. split; [assumption|].
      eapply Forall_impl; [exact Hdims|]. cbn. intros t. destruct ltr; lia.
  - destruct ltr; [discriminate|]. cbn [negb mbind result_bind].
    destruct (py_index shapes (Z.of_nat k)) as [shp|]; [|discriminate].
    rewrite py_setitem_nat by assumption. cbn [mbind result_bind].
    intros Hrec. apply IH in Hrec as (new & -> & Happ & Hdims); [|lia].
    eexists (_ :: new). split; [now rewrite <- app_assoc|]. split.
    * cbn [apply_steps]. now rewrite (apply_step_emitted _ _ _ _ _ Hpk).
    * constructor; [cbn; lia|].
      eapply Forall_impl; [exact Hdims|]. cbn. intros t. lia.
Qed.

(** ** The fuel never runs out *)

Lemma py_index_raises {A} (l : list A) i e :
  py_index l i = Raise e → e = IndexError.
Proof. unfold py_index. repeat case_match; congruence. Qed.

Lemma py_setitem_raises {A} (l : list A) i x e :
  py_setitem l i x = Raise e → e = IndexError.
Proof. unfold py_setitem. case_match; congruence. Qed.

Lemma reshardable_raises cur dst i e :
  reshardable_from_src_to_dst cur dst i = Raise e → e = IndexError.
Proof.
  unfold reshardable_from_src_to_dst.
  destruct (py_index cur i) eqn:Hc; cbn [mbind result_bind];
    [|intros [= <-]; eapply py_index_raises; eauto].
  destruct (py_index dst i) eqn:Hd; cbn [mbind result_bind];
    [|intros [= <-]; eapply py_index_raises; eauto].
  repeat case_match; discriminate.
Qed.

(** The only exceptions of [search_transform_infos] are those of its body:
    an IndexError of a list access, or the RuntimeError of the
    outer-to-inner pass. In particular the depth bound it is run with is
    never hit. *)
Lemma search_raises dst mesh_ndim shapes ltr (n : nat) :
  ∀ cur idx infos e,
    (visits_left idx mesh_ndim ltr ≤ n)%nat →
    search_transform_infos cur dst idx mesh_ndim shapes infos ltr = Raise e →
    e = IndexError ∨ e = RuntimeError.
Proof.
  induction n as [|n IH]; intros cur idx infos e Hn;
    rewrite search_transform_infos_unfold; unfold search_body.
  all: destruct (bool_decide (cur = dst)); [discriminate|].
  all: case_bool_decide as Hout; [discriminate|].
  { rewrite (visits_left_step _ _ _ Hout) in Hn. lia. }
  rewrite (visits_left_step _ _ _ Hout) in Hn.
  destruct (py_index cur idx) as [p|] eqn:Hp; cbn [mbind result_bind];
    [|intros [= <-]; left; eapply py_index_raises; eauto].
  destruct (py_index dst idx) as [q|] eqn:Hq; cbn [mbind result_bind];
    [|intros [= <-]; left; eapply py_index_raises; eauto].
  destruct (reshardable_from_src_to_dst cur dst idx) as [[|]|] eqn:Hr;
    cbn [mbind result_bind];
    [| |intros [= <-]; left; eapply reshardable_raises; eauto].
  - destruct (bool_decide (p ≠ q)); cbn [mbind result_bind fst snd].
    + destruct (py_index shapes idx) eqn:Hs; cbn [mbind result_bind];
        [|intros [= <-]; left; eapply py_index_raises; eauto].
      destruct (py_setitem cur idx q) eqn:Hset; cbn [mbind result_bind fst snd];
        [|intros [= <-]; left; eapply py_setitem_raises; eauto].
      apply IH. lia.
    + apply IH. lia.
  - destruct ltr; cbn [negb]; [intros [= <-]; now right|].
    destruct (py_index shapes idx) eqn:Hs; cbn [mbind result_bind];
      [|intros [= <-]; left; eapply py_index_raises; eauto].
    destruct (py_setitem cur idx Replicate) eqn:Hset; cbn [mbind result_bind];
      [|intros [= <-]; left; eapply py_setitem_raises; eauto].
    apply IH. lia.
Qed.

Lemma search_no_recursion_error cur dst idx mesh_ndim shapes infos ltr :
  search_transform_infos cur dst idx mesh_ndim shapes infos ltr
  ≠ Raise RecursionError.
Proof.
  intros H. eapply search_raises in H as [H|H]; [| |reflexivity]; discriminate.
Qed.

Lemma apply_step_length cur t cur' :
  apply_step cur t = Some cur' → length cur' = length cur.
Proof.
  unfold apply_step. repeat case_match; try discriminate.
  intros [= <-]. apply length_insert.
Qed.

Lemma apply_steps_length steps : ∀ cur cur',
  apply_steps steps cur = Some cur' → length cur' = length cur.
Proof.
  induction steps as [|t rest IH]; intros cur cur'; cbn.
  - now intros [= ->].
  - destruct (apply_step cur t) as [cur1|] eqn:H1; [|discriminate].
    intros H. apply IH in H. apply apply_step_length in H1. lia.
Qed.

(** The outer-to-inner pass, when it returns, has reached [dst]: the mesh
    dims below [idx] agree already, and each visit settles one more. *)
Lemma search_ltr_reaches_dst dst mesh_ndim shapes (n : nat) :
  ∀ cur idx infos cur' infos',
    (visits_left idx mesh_ndim true ≤ n)%nat →
    0 ≤ idx →
    length cur = length dst →
    Z.of_nat (length dst) ≤ mesh_ndim →
    (∀ j : nat, Z.of_nat j < idx → cur !! j = dst !! j) →
    search_transform_infos cur dst idx mesh_ndim shapes infos true
    = Ok (cur', infos') →
    cur' = dst.
Proof.
  induction n as [|n IH]; intros cur idx infos cur' infos' Hn Hidx Hlen Hnd Hpre;
    rewrite search_transform_infos_unfold; unfold search_body.
  all: case_bool_decide as Heq; [now intros [= <- <-]|].
  all: case_bool_decide as Hout.
  1, 3: intros [= <- <-]; apply list_eq; intros j;
    destruct (decide (j < length dst)%nat) as [Hj|Hj];
    [apply Hpre; lia
    |rewrite !lookup_ge_None_2 by lia; reflexivity].
  { rewrite (visits_left_step _ _ _ Hout) in Hn. lia. }
  rewrite (visits_left_step _ _ _ Hout) in Hn.
  destruct (py_index cur idx) as [p|] eqn:Hp; [|discriminate].
  destruct (py_index_Ok _ _ _ Hp) as (k & Hk & Hpk).
  pose proof (py_pos_nonneg _ _ _ Hidx Hk) as ->.
  pose proof (py_pos_lt _ _ _ Hk) as Hklt.
  destruct (py_index dst (Z.of_nat k)) as [q|] eqn:Hq; [|discriminate].
  destruct (py_index_Ok _ _ _ Hq) as (k' & Hk' & Hqk).
  pose proof (py_pos_nonneg _ _ _ Hidx Hk') as Hkk'.
  apply Nat2Z.inj in Hkk'. subst k'.
  destruct (reshardable_from_src_to_dst cur dst (Z.of_nat k)) as [[|]|];
    cbn [mbind result_bind negb]; [|discriminate..].
  case_bool_decide as Hpq; cbn [mbind result_bind].
  - destruct (py_index shapes (Z.of_nat k)) as [shp|]; [|discriminate].
    rewrite py_setitem_nat by assumption. cbn [mbind result_bind fst snd].
    apply IH; try lia.
    + rewrite length_insert. assumption.
    + intros j Hj. destruct (decide (j = k)) as [->|Hne].
      * rewrite list_lookup_insert_eq by assumption. now rewrite Hqk.
      * rewrite list_lookup_insert_ne by congruence. apply Hpre. lia.
  - cbn [fst snd]. apply IH; try lia.
    intros j Hj. destruct (decide (j = k)) as [->|Hne].
    + now rewrite Hpk, Hqk, Hpq.
    + apply Hpre. lia.
Qed.

Lemma search_length dst mesh_ndim shapes ltr cur idx infos cur' infos' :
  search_transform_infos cur dst idx mesh_ndim shapes infos ltr
  = Ok (cur', infos') →
  length cur' = length cur.
Proof.
  intros H. eapply search_sound in H as (new & _ & Happ & _); [|reflexivity].
  eapply apply_steps_length; eauto.
Qed.

(** C1. Soundness of the planner on placements. Whenever
    [_gen_transform_infos] returns a plan for two well-formed specs on one
    mesh, reading each step as "the placement at [mesh_dim], now equal to
    [from], becomes [to]" and applying the steps in order succeeds at every
    step (each [from] is the placement then current at its mesh dim) and
    turns the placements of the source into those of the destination. *)
Theorem C1_planner_sound (src_spec dst_spec : DTensorSpec)
    (steps : list _TransformInfo) :
  mesh src_spec = mesh dst_spec →
  spec_wf src_spec →
  spec_wf dst_spec →
  _gen_transform_infos src_spec dst_spec = Ok steps →
  apply_steps steps (placements src_spec) = Some (placements dst_spec).
Proof.
  intros Hmesh [Hsrc _] [Hdst _]. rewrite <- Hmesh in Hdst.
  unfold _gen_transform_infos. cbn zeta.
  destruct (get_coordinate (mesh src_spec)) as [c|]; [|discriminate].
  unfold ndim. case_bool_decide as H1d.
  - destruct (placements src_spec) as [|p [|p' ps]]; cbn in Hsrc; try lia.
    destruct (placements dst_spec) as [|q [|q' qs]]; cbn in Hdst; try lia.
    cbn. intros [= <-]. cbn [apply_steps].
    now rewrite (apply_step_emitted [p] 0 p q _ eq_refl).
  - destruct (logical_shape_loop _ _ _ _) as [shapes|]; [|discriminate].
    cbn [mbind result_bind].
    destruct (num_shards src_spec) as [shards|]; [|discriminate].
    cbn [mbind result_bind].
    set (first_pass := if bool_decide (1 < shards) then _ else _).
    destruct first_pass as [[cur1 infos1]|] eqn:Hfirst; [|discriminate].
    cbn [mbind result_bind fst snd].
    destruct (search_transform_infos cur1 _ 0 _ _ _ true)
      as [[cur2 infos2]|] eqn:Hsecond; [|discriminate].
    cbn [mbind result_bind snd]. intros [= <-].
    assert (Hone : apply_steps infos1 (placements src_spec) = Some cur1).
    { subst first_pass. case_bool_decide.
      - eapply search_sound in Hfirst as (new & -> & Happ & _);
          [|reflexivity]. exact Happ.
      - now injection Hfirst as <- <-. }
    pose proof (apply_steps_length _ _ _ Hone) as Hlen1.
    pose proof Hsecond as Hreach.
    eapply search_ltr_reaches_dst in Hreach; [|reflexivity|lia..].
    subst cur2.
    eapply search_sound in Hsecond as (new & -> & Happ & _); [|reflexivity].
    now rewrite (apply_steps_app _ _ _ _ Hone).
Qed.

(** C2. Scenario S3: on a 2x2 mesh with global shape (4, 4), whatever
    member worker runs the planner, the plan from [(Shard 0, Shard 0)] to
    [(Replicate, Shard 0)] has exactly three steps, in this order: on mesh
    dim 1 [Shard 0 -> Replicate], on mesh dim 0 [Shard 0 -> Replicate], on
    mesh dim 1 [Replicate -> Shard 0]. *)
Theorem C2_scenario_S3 (src_spec dst_spec : DTensorSpec) (c : list Z) :
  mesh_shape (mesh src_spec) = [2; 2] →
  get_coordinate (mesh src_spec) = Some c →
  in_mesh (mesh src_spec) c →
  mesh dst_spec = mesh src_spec →
  shape (tensor_meta src_spec) = [4; 4] →
  placements src_spec = [Shard 0; Shard 0] →
  placements dst_spec = [Replicate; Shard 0] →
  plan_triples (_gen_transform_infos src_spec dst_spec)
  = Ok [(1, Shard 0, Replicate); (0, Shard 0, Replicate);
        (1, Replicate, Shard 0)].
Proof.
  destruct src_spec as [[sizes coord] src_placements [shp strd dt]].
  destruct dst_spec as [dst_mesh dst_placements dst_meta].
  unfold in_mesh. cbn. intros -> -> Hin _ -> -> ->.
  inversion Hin as [|c0 n0 c' ns' H0 Hin']; subst.
  inversion Hin' as [|c1 n1 c'' ns'' H1 Hin'']; subst.
  inversion Hin''; subst.
  assert (Hc0 : c0 = 0 ∨ c0 = 1) by lia.
  destruct Hc0 as [-> | ->]; vm_compute; reflexivity.
Qed.






(** ** The two loops of the reshardability predicate *)

Lemma is_shard_of_true p d : is_shard_of p d = true ↔ p = Shard d.
Proof.
  destruct p as [|d'|op]; cbn; try (split; discriminate).
  rewrite bool_decide_eq_true. split; congruence.
Qed.

Lemma is_shard_of_false p d : is_shard_of p d = false ↔ p ≠ Shard d.
Proof.
  rewrite <- is_shard_of_true. destruct (is_shard_of p d); split; congruence.
Qed.

Lemma enumerate_from_app {A} (l l' : list A) : ∀ start,
  enumerate_from start (l ++ l')
  = enumerate_from start l
    ++ enumerate_from (start + Z.of_nat (length l)) l'.
Proof.
  induction l as [|x l IH]; intros start; cbn [app enumerate_from length].
  - now rewrite Z.add_0_r.
  - rewrite IH. cbn [app]. do 3 f_equal. lia.
Qed.

Lemma innermost_shard_scan_snoc l p d m :
  innermost_shard_scan (reverse (enumerate (l ++ [p]))) d m
  = if is_shard_of p d then
      if bool_decide (Z.of_nat (length l) ≠ m) then Some false else None
    else innermost_shard_scan (reverse (enumerate l)) d m.
Proof.
  unfold enumerate. rewrite enumerate_from_app. cbn [enumerate_from].
  rewrite reverse_app. reflexivity.
Qed.

Lemma last_shard_of_snoc_hit l d j :
  last_shard_of (l ++ [Shard d]) d j ↔ j = length l.
Proof.
  unfold last_shard_of. split.
  - intros [Hj Hlast].
    pose proof (lookup_lt_Some _ _ _ Hj) as Hlt.
    rewrite length_app in Hlt. cbn in Hlt.
    destruct (decide (j = length l)) as [|Hne]; [assumption|].
    exfalso. apply (Hlast (length l)); [lia|].
    now rewrite list_lookup_middle.
  - intros ->. split; [now rewrite list_lookup_middle|].
    intros k Hk. rewrite lookup_ge_None_2; [discriminate|].
    rewrite length_app. cbn. lia.
Qed.

Lemma last_shard_of_snoc_miss l p d j :
  p ≠ Shard d → last_shard_of (l ++ [p]) d j ↔ last_shard_of l d j.
Proof.
  intros Hp. unfold last_shard_of.
  assert (Hlook : ∀ k, (l ++ [p]) !! k = Some (Shard d) ↔ l !! k = Some (Shard d)).
  { intros k. destruct (decide (k < length l)%nat) as [Hk|Hk].
    - now rewrite lookup_app_l.
    - rewrite (lookup_ge_None_2 l) by lia.
      rewrite lookup_app_r by lia.
      destruct (k - length l)%nat as [|k'] eqn:Hd; cbn.
      + split; [intros [= ?]; contradiction|discriminate].
      + split; discriminate. }
  rewrite Hlook. split; intros [Hj Hlast]; (split; [assumption|]);
    intros k Hk Hcontra; apply (Hlast k Hk); now apply Hlook.
Qed.

(** The first loop returns [False] exactly when the last [Shard d] of
    [cur] is at another mesh dim than [i]. *)
Lemma innermost_shard_scan_spec d (i : nat) (cur : list Placement) :
  match innermost_shard_scan (reverse (enumerate cur)) d (Z.of_nat i) with
  | Some b => b = false ∧ ∃ j, last_shard_of cur d j ∧ j ≠ i
  | None => ∀ j, last_shard_of cur d j → j = i
  end.
Proof.
  induction cur as [|p l IH] using rev_ind.
  - cbn. intros j [Hj _]. discriminate.
  - rewrite innermost_shard_scan_snoc.
    destruct (is_shard_of p d) eqn:Hp.
    + apply is_shard_of_true in Hp as ->. case_bool_decide as Hi.
      * split; [reflexivity|]. exists (length l). split; [|lia].
        now apply last_shard_of_snoc_hit.
      * intros j Hj. apply last_shard_of_snoc_hit in Hj. lia.
    + apply is_shard_of_false in Hp.
      destruct (innermost_shard_scan (reverse (enumerate l)) d (Z.of_nat i)).
      * destruct IH as (-> & j & Hj & Hne). split; [reflexivity|].
        exists j. split; [|assumption]. now apply last_shard_of_snoc_miss.
      * intros j Hj. apply IH. now apply last_shard_of_snoc_miss in Hj.
Qed.

(** The second loop: it stops at [i], and the two lists it has built are
    equal exactly when the placements before [i] shard tensor dim [d] at the
    same mesh dims. *)
Lemma mesh_sharding_scan_spec (cur dst : list Placement) d (i : nat) zs :
  ∀ (s : nat) cs ts,
  (s ≤ i < s + length zs)%nat →
  (∀ (k : nat) z, zs !! k = Some z →
     cur !! (s + k)%nat = Some z.1 ∧ dst !! (s + k)%nat = Some z.2) →
  Forall (fun x => x < Z.of_nat s) cs →
  Forall (fun x => x < Z.of_nat s) ts →
  (cs = ts ↔
   ∀ j : nat, (j < s)%nat →
     (cur !! j = Some (Shard d) ↔ dst !! j = Some (Shard d))) →
  let r := mesh_sharding_scan (enumerate_from (Z.of_nat s) zs) d (Z.of_nat i)
             cs ts in
  r.1 = r.2 ↔
  ∀ j : nat, (j < i)%nat →
    (cur !! j = Some (Shard d) ↔ dst !! j = Some (Shard d)).
Proof.
  induction zs as [|[p q] zs IH]; intros s cs ts Hs Hzs Hcs Hts Hinv;
    cbn [length] in Hs; [lia|].
  cbn [enumerate_from mesh_sharding_scan].
  case_bool_decide as Hbreak.
  - assert (s = i) as -> by lia. exact Hinv.
  - replace (Z.of_nat s + 1) with (Z.of_nat (S s)) by lia.
    destruct (Hzs 0%nat (p, q) eq_refl) as [Hp Hq].
    rewrite Nat.add_0_r in Hp, Hq. cbn [fst snd] in Hp, Hq.
    assert (Hfresh : ∀ l : list Z,
              Forall (fun x => x < Z.of_nat s) l → Z.of_nat s ∉ l).
    { intros l Hl Hin. rewrite Forall_forall in Hl.
      specialize (Hl _ Hin). lia. }
    assert (Hgrow : ∀ l : list Z,
              Forall (fun x => x < Z.of_nat s) l →
              Forall (fun x => x < Z.of_nat (S s)) l).
    { intros l Hl. eapply Forall_impl; [exact Hl|]. cbn. lia. }
    assert (Hsnoc : ∀ l : list Z,
              Forall (fun x => x < Z.of_nat s) l →
              Forall (fun x => x < Z.of_nat (S s)) (l ++ [Z.of_nat s])).
    { intros l Hl. apply Forall_app. split; [auto|]. constructor; [lia|constructor]. }
    assert (Hext : ∀ P : Prop,
              (P ↔ ∀ j : nat, (j < s)%nat →
                 (cur !! j = Some (Shard d) ↔ dst !! j = Some (Shard d))) →
              (cur !! s = Some (Shard d) ↔ dst !! s = Some (Shard d)) →
              (P ↔ ∀ j : nat, (j < S s)%nat →
                 (cur !! j = Some (Shard d) ↔ dst !! j = Some (Shard d)))).
    { intros P HP Hat. rewrite HP. split.
      - intros Hall j Hj. destruct (decide (j = s)) as [->|]; [assumption|].
        apply Hall. lia.
      - intros Hall j Hj. apply Hall. lia. }
    apply IH.
    + lia.
    + intros k z Hk. specialize (Hzs (S k) z Hk).
      now rewrite Nat.add_succ_r in Hzs.
    + destruct (is_shard_of p d); auto.
    + destruct (is_shard_of q d); auto.
    + destruct (is_shard_of p d) eqn:Ep, (is_shard_of q d) eqn:Eq.
      * apply is_shard_of_true in Ep, Eq. subst p q.
        apply Hext; [|now rewrite Hp, Hq].
        rewrite <- Hinv. split; [apply app_inj_tail|congruence].
      * apply is_shard_of_true in Ep. apply is_shard_of_false in Eq. subst p.
        split.
        -- intros Heq. exfalso. apply (Hfresh ts Hts). rewrite <- Heq.
           apply elem_of_app. right. now apply list_elem_of_singleton.
        -- intros Hall. exfalso. apply Eq.
           assert (Hd : dst !! s = Some (Shard d)) by (apply Hall; [lia|assumption]).
           congruence.
      * apply is_shard_of_false in Ep. apply is_shard_of_true in Eq. subst q.
        split.
        -- intros Heq. exfalso. apply (Hfresh cs Hcs). rewrite Heq.
           apply elem_of_app. right. now apply list_elem_of_singleton.
        -- intros Hall. exfalso. apply Ep.
           assert (Hd : cur !! s = Some (Shard d)) by (apply Hall; [lia|assumption]).
           congruence.
      * apply is_shard_of_false in Ep, Eq.
        apply Hext; [assumption|].
        rewrite Hp, Hq. split; congruence.
Qed.

Lemma shards_before_agree (cur dst : list Placement) d (i : nat) :
  (∀ j : nat, (j < i)%nat →
     (cur !! j = Some (Shard d) ↔ dst !! j = Some (Shard d)))
  ↔ (∀ j, shards_before cur d i j ↔ shards_before dst d i j).
Proof.
  unfold shards_before. split.
  - intros H j. split; intros [Hj Hs]; (split; [assumption|]); now apply H.
  - intros H j Hj. split; intros Hs; now apply H.
Qed.

Lemma early_exit_spec (cur : list Placement) (i : nat) (c : Placement) :
  cur !! i = Some c →
  let early :=
    match c with
    | Shard dim =>
        innermost_shard_scan (reverse (enumerate cur)) dim (Z.of_nat i)
    | _ => None
    end in
  (early = Some false ∧ outer_nested_shard cur i)
  ∨ (early = None ∧ ¬ outer_nested_shard cur i).
Proof.
  intros Hc early. subst early. destruct c as [|d|op].
  - right. split; [reflexivity|]. intros (d & j & Hd & _). congruence.
  - pose proof (innermost_shard_scan_spec d i cur) as Hscan.
    destruct (innermost_shard_scan _ d _) as [b|].
    + destruct Hscan as (-> & j & Hj & Hne). left. split; [reflexivity|].
      exists d, j. auto.
    + right. split; [reflexivity|]. intros (d' & j & Hd & Hj & Hne).
      assert (d' = d) as -> by congruence. auto.
  - right. split; [reflexivity|]. intros (d & j & Hd & _). congruence.
Qed.

(** C4. [reshardable_from_src_to_dst(cur, dst, i)], for a mesh dim [i] of
    both tuples, returns a boolean [b] such that: [b] is false when
    [cur[i]] is [Shard d] and the last mesh dim whose placement in [cur] is
    [Shard d] is not [i]; otherwise [b] is true when [dst[i]] is not a
    shard; and when [dst[i]] is [Shard d'], [b] is true exactly when the
    mesh dims below [i] that shard tensor dim [d'] are the same set in
    [cur] and in [dst]. *)
Theorem C4_reshardable_spec (cur dst : list Placement) (i : nat)
    (c t : Placement) :
  cur !! i = Some c →
  dst !! i = Some t →
  ∃ b, reshardable_from_src_to_dst cur dst (Z.of_nat i) = Ok b
    ∧ (outer_nested_shard cur i → b = false)
    ∧ (¬ outer_nested_shard cur i → is_shard t = false → b = true)
    ∧ (¬ outer_nested_shard cur i → ∀ d', t = Shard d' →
         (b = true ↔
          ∀ j, shards_before cur d' i j ↔ shards_before dst d' i j)).
Proof.
  intros Hc Ht. unfold reshardable_from_src_to_dst.
  rewrite (py_index_lookup _ _ _ Hc), (py_index_lookup _ _ _ Ht).
  cbn [mbind result_bind].
  destruct (early_exit_spec cur i c Hc) as [[-> Houter]|[-> Hinner]].
  - exists false. split; [reflexivity|]. repeat split; intros; contradiction.
  - destruct t as [|d'|op].
    + exists true. split; [reflexivity|]. repeat split; intros; try discriminate.
      contradiction.
    + pose proof (mesh_sharding_scan_spec cur dst d' i (zip cur dst)
                    0%nat [] []) as Hscan.
      cbn zeta in Hscan. change (Z.of_nat 0) with 0 in Hscan.
      unfold enumerate.
      destruct (mesh_sharding_scan _ d' (Z.of_nat i) [] []) as [cs ts].
      cbn [fst snd] in Hscan.
      exists (bool_decide (cs = ts)). split; [reflexivity|].
      split; [intros; contradiction|]. split; [discriminate|].
      intros _ d'' [= <-]. rewrite bool_decide_eq_true.
      rewrite <- shards_before_agree. apply Hscan.
      * rewrite length_zip.
        apply lookup_lt_Some in Hc, Ht. lia.
      * intros k [p q] Hk. cbn [Nat.add fst snd].
        apply lookup_zip_with_Some in Hk as (x & y & [= -> ->] & Hx & Hy).
        auto.
      * constructor.
      * constructor.
      * split; [intros _ j Hj; lia|reflexivity].
    + exists true. split; [reflexivity|]. repeat split; intros; try discriminate.
      contradiction.
Qed.

(** ** The coordinate only reaches the logical shapes *)

Lemma py_pos_same_length {A B} (l1 : list A) (l2 : list B) i :
  length l1 = length l2 → py_pos l1 i = py_pos l2 i.
Proof. intros H. unfold py_pos. now rewrite H. Qed.

Lemma py_index_rel {A B} (R : A → B → Prop) l1 l2 i :
  Forall2 R l1 l2 → result_rel R (py_index l1 i) (py_index l2 i).
Proof.
  intros HR. unfold py_index.
  rewrite (py_pos_same_length l1 l2 i (Forall2_length _ _ _ HR)).
  destruct (py_pos l2 i) as [k|]; [|reflexivity].
  destruct (l1 !! k) as [a|] eqn:Ha.
  - destruct (Forall2_lookup_l _ _ _ _ _ HR Ha) as (b & -> & Hab). exact Hab.
  - apply lookup_ge_None_1 in Ha.
    rewrite lookup_ge_None_2; [reflexivity|].
    apply Forall2_length in HR. lia.
Qed.

Lemma py_index_rel_length {A B} (l1 : list A) (l2 : list B) i :
  length l1 = length l2 →
  result_rel (fun _ _ => True) (py_index l1 i) (py_index l2 i).
Proof. intros H. apply py_index_rel. now apply Forall2_true. Qed.

Lemma result_rel_bind {A B A' B'} (R : A → B → Prop) (S : A' → B' → Prop)
    r1 r2 (f : A → result A') (g : B → result B') :
  result_rel R r1 r2 →
  (∀ a b, R a b → result_rel S (f a) (g b)) →
  result_rel S (r1 ≫= f) (r2 ≫= g).
Proof.
  destruct r1, r2; cbn; intros H Hfg; try contradiction; auto.
Qed.

Lemma logical_shape_loop_rel m1 m2 c1 c2 enum :
  mesh_shape m1 = mesh_shape m2 →
  length c1 = length c2 →
  ∀ L1 L2, same_lengths L1 L2 →
    result_rel same_lengths
      (logical_shape_loop m1 c1 enum L1) (logical_shape_loop m2 c2 enum L2).
Proof.
  intros Hm Hc. induction enum as [|[i [src dst]] rest IH]; intros L1 L2 HL.
  - exact HL.
  - cbn [logical_shape_loop].
    eapply result_rel_bind; [apply py_index_rel; exact HL|].
    cbn beta. intros cur1 cur2 Hcur.
    assert (Hsnoc : ∀ a b, length a = length b →
              same_lengths (L1 ++ [a]) (L2 ++ [b])).
    { intros a b Hab. apply Forall2_app; [exact HL|]. now constructor. }
    destruct src as [|d|op]; [now apply IH, Hsnoc| |now apply IH, Hsnoc].
    unfold ndim, size. rewrite Hm.
    destruct (bool_decide _); [|now apply IH].
    destruct (py_index (mesh_shape m2) i) as [n|]; [|reflexivity].
    cbn [mbind result_bind].
    eapply result_rel_bind; [apply py_index_rel_length; exact Hcur|].
    cbn beta. intros sz1 sz2 _.
    eapply result_rel_bind; [apply py_index_rel_length; exact Hc|].
    cbn beta. intros co1 co2 _.
    unfold _local_shard_size_on_dim.
    destruct (bool_decide (n = 0)); [reflexivity|].
    cbn [mbind result_bind]. unfold py_setitem.
    rewrite (py_pos_same_length cur1 cur2 d Hcur).
    destruct (py_pos cur2 d) as [k|]; [|reflexivity].
    cbn [mbind result_bind]. apply IH, Hsnoc.
    now rewrite !length_insert.
Qed.

Lemma num_shards_from_mesh_shape m1 m2 ps :
  mesh_shape m1 = mesh_shape m2 →
  ∀ acc, num_shards_from m1 ps acc = num_shards_from m2 ps acc.
Proof.
  intros Hm. induction ps as [|[i p] ps IH]; intros acc; cbn; [reflexivity|].
  unfold size. rewrite Hm. destruct (is_shard p); [|apply IH].
  destruct (py_index _ i); cbn; [apply IH|reflexivity].
Qed.

Lemma same_triples_snoc infos1 infos2 i pq shp1 shp2 :
  same_triples infos1 infos2 →
  same_triples
    (infos1 ++ [{| mesh_dim := i; src_dst_placements := pq;
                   logical_shape := shp1 |}])
    (infos2 ++ [{| mesh_dim := i; src_dst_placements := pq;
                   logical_shape := shp2 |}]).
Proof. unfold same_triples. intros H. rewrite !map_app, H. reflexivity. Qed.

Lemma search_shapes_rel dst mesh_ndim ltr shapes1 shapes2 (n : nat) :
  length shapes1 = length shapes2 →
  ∀ cur idx infos1 infos2,
    (visits_left idx mesh_ndim ltr ≤ n)%nat →
    same_triples infos1 infos2 →
    result_rel same_search_state
      (search_transform_infos cur dst idx mesh_ndim shapes1 infos1 ltr)
      (search_transform_infos cur dst idx mesh_ndim shapes2 infos2 ltr).
Proof.
  intros Hshapes.
  induction n as [|n IH]; intros cur idx infos1 infos2 Hn Hinfos;
    rewrite !search_transform_infos_unfold; unfold search_body.
  all: destruct (bool_decide (cur = dst)); [now split|].
  all: case_bool_decide as Hout; [now split|].
  { rewrite (visits_left_step _ _ _ Hout) in Hn. lia. }
  rewrite (visits_left_step _ _ _ Hout) in Hn.
  destruct (py_index cur idx) as [p|]; [|reflexivity].
  destruct (py_index dst idx) as [q|]; [|reflexivity].
  destruct (reshardable_from_src_to_dst cur dst idx) as [[|]|];
    cbn [mbind result_bind]; [| |reflexivity].
  - destruct (bool_decide (p ≠ q)); cbn [mbind result_bind fst snd].
    + pose proof (py_index_rel_length shapes1 shapes2 idx Hshapes) as Hs.
      destruct (py_index shapes1 idx), (py_index shapes2 idx);
        cbn in Hs; try contradiction; [|now subst].
      cbn [mbind result_bind].
      destruct (py_setitem cur idx q); [|reflexivity].
      cbn [mbind result_bind fst snd].
      apply IH; [lia|]. now apply same_triples_snoc.
    + apply IH; [lia|assumption].
  - destruct ltr; [reflexivity|]. cbn [negb].
    pose proof (py_index_rel_length shapes1 shapes2 idx Hshapes) as Hs.
    destruct (py_index shapes1 idx), (py_index shapes2 idx);
      cbn in Hs; try contradiction; [|now subst].
    cbn [mbind result_bind].
    destruct (py_setitem cur idx Replicate); [|reflexivity].
    cbn [mbind result_bind].
    apply IH; [lia|]. now apply same_triples_snoc.
Qed.

(** C5. Two workers of one mesh plan the same redistribution: for fixed
    specs and any two member coordinates, the two runs of
    [_gen_transform_infos] either raise the same exception or return plans
    with the same [(mesh_dim, from, to)] at every index (so of the same
    length); only [logical_shape] is left free to differ. *)
Theorem C5_plan_consistent_across_workers (src_spec dst_spec : DTensorSpec)
    (c1 c2 : list Z) :
  in_mesh (mesh src_spec) c1 →
  in_mesh (mesh src_spec) c2 →
  plan_triples (_gen_transform_infos (at_coordinate c1 src_spec)
                  (at_coordinate c1 dst_spec))
  = plan_triples (_gen_transform_infos (at_coordinate c2 src_spec)
                    (at_coordinate c2 dst_spec)).
Proof.
  intros H1 H2.
  assert (Hc : length c1 = length c2).
  { apply Forall2_length in H1, H2. lia. }
  unfold _gen_transform_infos, at_coordinate, num_shards, ndim.
  cbn [mesh placements tensor_meta mesh_shape get_coordinate].
  destruct (bool_decide _); [reflexivity|].
  set (m1 := {| mesh_shape := _; get_coordinate := Some c1 |}).
  set (m2 := {| mesh_shape := _; get_coordinate := Some c2 |}).
  pose proof (logical_shape_loop_rel m1 m2 c1 c2
                (enumerate (zip (placements src_spec) (placements dst_spec)))
                eq_refl Hc [shape (tensor_meta src_spec)]
                [shape (tensor_meta src_spec)]) as Hloop.
  destruct (logical_shape_loop m1 _ _ _) as [L1|e1],
           (logical_shape_loop m2 _ _ _) as [L2|e2];
    cbn in Hloop; try (exfalso; apply Hloop; now repeat constructor).
  2: { cbn. f_equal. apply Hloop. now repeat constructor. }
  assert (HL : length L1 = length L2).
  { eapply Forall2_length, Hloop. now repeat constructor. }
  cbn [mbind result_bind].
  rewrite (num_shards_from_mesh_shape m1 m2 _ eq_refl).
  destruct (num_shards_from m2 _ 1) as [shards|]; [|reflexivity].
  cbn [mbind result_bind].
  set (ndim := Z.of_nat (length (mesh_shape (mesh src_spec)))).
  assert (Hfirst : result_rel same_search_state
    (if bool_decide (1 < shards)
     then search_transform_infos (placements src_spec) (placements dst_spec)
            (ndim - 1) ndim L1 [] false
     else Ok (placements src_spec, []))
    (if bool_decide (1 < shards)
     then search_transform_infos (placements src_spec) (placements dst_spec)
            (ndim - 1) ndim L2 [] false
     else Ok (placements src_spec, []))).
  { destruct (bool_decide (1 < shards)); [|now split].
    eapply search_shapes_rel; [exact HL|reflexivity|reflexivity]. }
  destruct (if bool_decide (1 < shards) then _ else _) as [[cur1 infos1]|],
           (if bool_decide (1 < shards) then _ else _) as [[cur2 infos2]|];
    cbn in Hfirst; try contradiction; [|now subst].
  destruct Hfirst as [Hcur Hinfos]. cbn [fst snd] in Hcur, Hinfos. subst cur2.
  cbn [mbind result_bind fst snd].
  pose proof (search_shapes_rel (placements dst_spec) ndim true L1 L2 _ HL
                cur1 0 infos1 infos2 (le_n _) Hinfos) as Hsecond.
  destruct (search_transform_infos cur1 _ 0 ndim L1 infos1 true) as [[? ?]|],
           (search_transform_infos cur1 _ 0 ndim L2 infos2 true) as [[? ?]|];
    cbn in Hsecond; try contradiction; [|now subst].
  destruct Hsecond as [_ Hsame]. cbn. f_equal. exact Hsame.
Qed.

(** ** The executor and the operator *)

Section ExecutorFacts.
Context {tensor : Type} (is_async : tensor → bool).

(** C9. A worker that is not part of the mesh ([get_coordinate] is [None])
    gets its local tensor back from [redistribute_local_tensor], for every
    two specs on that mesh and every flag: the result is a plain return,
    without any external call. The planner is not what produced it: run
    for such a worker it fails its first assertion, so no step exists. *)
Theorem C9_non_member_identity (local_tensor : tensor)
    (current_spec target_spec : DTensorSpec) (async_op is_backward : bool) :
  mesh current_spec = mesh target_spec →
  get_coordinate (mesh current_spec) = None →
  redistribute_local_tensor is_async local_tensor current_spec target_spec
    async_op is_backward = Ret local_tensor
  ∧ calls_nothing
      (redistribute_local_tensor is_async local_tensor current_spec
         target_spec async_op is_backward)
  ∧ _gen_transform_infos current_spec target_spec
    = Raise (AssertionError None).
Proof.
  intros Hmesh Hcoord.
  assert (Hret : redistribute_local_tensor is_async local_tensor current_spec
                   target_spec async_op is_backward = Ret local_tensor).
  { unfold redistribute_local_tensor.
    rewrite bool_decide_eq_false_2 by (intros H; exact (H Hmesh)).
    cbn zeta. now rewrite Hcoord. }
  split; [exact Hret|]. split; [now rewrite Hret|].
  unfold _gen_transform_infos. cbn zeta. now rewrite Hcoord.
Qed.

(** C6. [Redistribute.forward] called with the placements the input
    already has returns at once, with no external call: the output wraps
    the very local tensor of the input, under the input's own spec. *)
Theorem C6_forward_same_placements (input : DTensor tensor)
    (device_mesh : DeviceMesh) (async_op : bool) :
  Redistribute_forward is_async input device_mesh
    (placements (_spec input)) async_op
  = Ret ({| ctx_current_spec := _spec input; ctx_async_op := async_op |},
         {| _local_tensor := _local_tensor input;
            _spec := _spec input;
            requires_grad := requires_grad input |})
  ∧ calls_nothing
      (Redistribute_forward is_async input device_mesh
         (placements (_spec input)) async_op).
Proof.
  unfold Redistribute_forward. cbn zeta.
  rewrite bool_decide_eq_false_2 by (intros H; now apply H).
  split; [reflexivity|exact I].
Qed.

(** C7. One step of the executor on mesh dim [i] of the mesh. Forward
    ([is_backward = false]), a step Shard -> Partial raises. Backward, the
    same step is the call of [_to_replicate_tensor] on the current shard,
    exactly what the step Shard -> Replicate does; and a backward step
    Replicate -> Partial continues with the local tensor itself, without
    the [_partition_value] call of the forward direction. *)
Theorem C7_backward_flag (device_mesh : DeviceMesh) (my_coordinate : list Z)
    (i d n : Z) (op : ReduceOp) (shp : list Z)
    (local_tensor : tensor) (new_local_tensor : option tensor) :
  size device_mesh i = Ok n →
  let step from to :=
    {| mesh_dim := i; src_dst_placements := (from, to);
       logical_shape := shp |} in
  redistribute_step device_mesh my_coordinate false
    (step (Shard d) (Partial op)) local_tensor new_local_tensor
  = Throw RuntimeError
  ∧ redistribute_step device_mesh my_coordinate true
      (step (Shard d) (Partial op)) local_tensor new_local_tensor
    = Call (_to_replicate_tensor (Shard d) local_tensor device_mesh i shp)
        (fun t => Ret (t, Some t))
  ∧ redistribute_step device_mesh my_coordinate true
      (step (Shard d) (Partial op)) local_tensor new_local_tensor
    = redistribute_step device_mesh my_coordinate true
        (step (Shard d) Replicate) local_tensor new_local_tensor
  ∧ redistribute_step device_mesh my_coordinate true
      (step Replicate (Partial op)) local_tensor new_local_tensor
    = Ret (local_tensor, Some local_tensor)
  ∧ redistribute_step device_mesh my_coordinate false
      (step Replicate (Partial op)) local_tensor new_local_tensor
    = Call (_partition_value (Partial op) local_tensor device_mesh i)
        (fun t => Ret (t, Some t)).
Proof.
  intros Hsize step. unfold redistribute_step, step. cbn.
  rewrite Hsize. cbn. repeat split.
Qed.
End ExecutorFacts.

Lemma returns_bind {tensor A B} (m : prog tensor A) (f : A → prog tensor B) b :
  returns (m ≫= f) b ↔ ∃ a, returns m a ∧ returns (f a) b.
Proof.
  unfold mbind, prog_bind. split.
  - revert b. induction m as [a|e|c k IH]; cbn; intros b Hb.
    + exists a. split; [constructor|assumption].
    + inversion Hb.
    + inversion Hb as [|c' k' t b' Hk]; subst.
      destruct (IH t b) as (a & Ha & Hf).
      * assumption.
      * exists a. split; [econstructor; eassumption|assumption].
  - intros (a & Ha & Hf). induction Ha as [a|c k t a Ha IH]; cbn.
    + assumption.
    + econstructor. apply IH. assumption.
Qed.

Lemma returns_Ret_inv {tensor A} (a b : A) :
  returns (Ret (tensor:=tensor) a) b → b = a.
Proof. now inversion 1. Qed.

Lemma normalize_placements_normalized ps : ∀ acc,
  ∃ ns, normalize_placements ps acc = acc ++ ns ∧ Forall2 normalized ps ns.
Proof.
  induction ps as [|p ps IH]; intros acc; cbn [normalize_placements].
  - exists []. split; [now rewrite app_nil_r|constructor].
  - destruct (is_partial p) eqn:Hp.
    + destruct (IH (acc ++ [Replicate])) as (ns & -> & Hns).
      exists (Replicate :: ns). split; [now rewrite <- app_assoc|].
      constructor; [|assumption]. split; congruence.
    + destruct (IH (acc ++ [p])) as (ns & -> & Hns).
      exists (p :: ns). split; [now rewrite <- app_assoc|].
      constructor; [|assumption]. split; congruence.
Qed.

Section BackwardFacts.
Context {tensor : Type} (is_async : tensor → bool).

Lemma forward_saves_input_spec (input : DTensor tensor) device_mesh
    placements' async_op ctx output :
  returns (Redistribute_forward is_async input device_mesh placements'
             async_op) (ctx, output) →
  ctx_current_spec ctx = _spec input.
Proof.
  unfold Redistribute_forward. cbn zeta. intros H.
  apply returns_bind in H as (st & _ & H).
  apply returns_Ret_inv in H. now injection H as -> _.
Qed.

(** C8. Backward normalization. Let [ctx] be what a forward call on
    [input] saved. Whenever the executor call of [Redistribute.backward]
    returns, so does [backward], with that tensor; and the spec of every
    DTensor it returns carries the placements of the spec of [input] with
    each [Partial] replaced by [Replicate] and every other placement kept:
    no position that was [Partial] in the forward source is [Partial]
    there. *)
Theorem C8_backward_normalization (input grad_output : DTensor tensor)
    (device_mesh : DeviceMesh) (placements' : list Placement)
    (async_op : bool) (ctx : Ctx) (forward_output : DTensor tensor) :
  returns (Redistribute_forward is_async input device_mesh placements'
             async_op) (ctx, forward_output) →
  (∀ output,
     returns (redistribute_local_tensor is_async (_local_tensor grad_output)
                (_spec grad_output) (_spec input) async_op true) output →
     ∃ grad_input,
       returns (Redistribute_backward is_async ctx grad_output) grad_input
       ∧ _local_tensor grad_input = output)
  ∧ (∀ grad_input,
       returns (Redistribute_backward is_async ctx grad_output) grad_input →
       Forall2 normalized (placements (_spec input))
         (placements (_spec grad_input))
       ∧ ∀ (i : nat) op,
           placements (_spec input) !! i = Some (Partial op) →
           placements (_spec grad_input) !! i = Some Replicate).
Proof.
  intros Hfwd.
  assert (Hasync : ctx_async_op ctx = async_op).
  { unfold Redistribute_forward in Hfwd. cbn zeta in Hfwd.
    apply returns_bind in Hfwd as (st & _ & H).
    apply returns_Ret_inv in H. now injection H as -> _. }
  apply forward_saves_input_spec in Hfwd.
  destruct (normalize_placements_normalized (placements (_spec input)) [])
    as (ns & Hns & Hnorm). cbn [app] in Hns.
  unfold Redistribute_backward. cbn zeta. rewrite Hfwd, Hasync, Hns. split.
  - intros output Hout. eexists. split.
    + apply returns_bind. exists output. split; [exact Hout|constructor].
    + reflexivity.
  - intros grad_input H.
    apply returns_bind in H as (output & _ & H).
    apply returns_Ret_inv in H. subst grad_input. cbn. split; [exact Hnorm|].
    intros i op Hi.
    destruct (Forall2_lookup_l _ _ _ _ _ Hnorm Hi) as (p & Hp & Hn & _).
    rewrite Hp. f_equal. now apply Hn.
Qed.
End BackwardFacts.

(** With equal placements both searches return at their first test, so
    the plan on a mesh that is not 1-dimensional is empty. *)
Lemma gen_same_placements_multi_dim src dst c :
  get_coordinate (mesh src) = Some c →
  in_mesh (mesh src) c →
  spec_wf src →
  placements src = placements dst →
  ndim (mesh src) ≠ 1 →
  _gen_transform_infos src dst = Ok [].
Proof.
  intros Hc Hin [Hlen Hdims] Hsame Hnd.
  unfold _gen_transform_infos. cbn zeta. rewrite Hc.
  rewrite bool_decide_eq_false_2 by assumption.
  rewrite <- Hsame.
  destruct (logical_shape_loop_ok (mesh src) c
              (length (shape (tensor_meta src)))
              (zip (placements src) (placements src)) 0
              [shape (tensor_meta src)]) as [L HL]; auto.
  - rewrite Forall_forall. intros [p q] Hpq d Hd. cbn in Hd. subst p.
    apply elem_of_zip_l in Hpq.
    rewrite Forall_forall in Hdims. eauto.
  - rewrite length_zip. lia.
  - unfold enumerate. change (Z.of_nat 0) with 0 in HL. rewrite HL. cbn [mbind result_bind].
    destruct (num_shards_from_ok (mesh src) (placements src) 0 1) as [n Hn];
      [lia|].
    unfold num_shards, enumerate. change (Z.of_nat 0) with 0 in Hn. rewrite Hn.
    cbn [mbind result_bind].
    destruct (bool_decide (1 < n)); cbn [mbind result_bind fst snd];
      rewrite ?search_same_placements; cbn [mbind result_bind fst snd];
      rewrite ?search_same_placements; reflexivity.
Qed.

Section DirectCall.
Context {tensor : Type} (is_async : tensor → bool).

(** C10. [redistribute_local_tensor] called directly by a member worker
    with two specs of equal placements (same mesh, well-formed). On a mesh
    of two or more dimensions the planner returns the empty list, and the
    executor raises the AssertionError "redistribute failed!" instead of
    returning the tensor. On a 1-dimensional mesh the plan is the single
    step [(0, p, p)], a no-op, and the executor returns the input tensor
    (after [wait] when it is an AsyncCollectiveTensor and the call is
    synchronous). *)
Theorem C10_same_placements_direct_call (local_tensor : tensor)
    (current_spec target_spec : DTensorSpec) (c : list Z)
    (async_op is_backward : bool) :
  mesh current_spec = mesh target_spec →
  placements current_spec = placements target_spec →
  get_coordinate (mesh current_spec) = Some c →
  in_mesh (mesh current_spec) c →
  spec_wf current_spec →
  (2 ≤ ndim (mesh current_spec) →
     _gen_transform_infos current_spec target_spec = Ok []
     ∧ redistribute_local_tensor is_async local_tensor current_spec
         target_spec async_op is_backward
       = Throw (AssertionError (Some "redistribute failed!")))
  ∧ (ndim (mesh current_spec) = 1 →
     ∃ p, placements current_spec = [p]
     ∧ _gen_transform_infos current_spec target_spec
       = Ok [{| mesh_dim := 0; src_dst_placements := (p, p);
                logical_shape := shape (tensor_meta current_spec) |}]
     ∧ redistribute_local_tensor is_async local_tensor current_spec
         target_spec async_op is_backward
       = if negb async_op && is_async local_tensor
         then call (wait local_tensor) else Ret local_tensor).
Proof.
  intros Hmesh Hsame Hc Hin Hwf. split.
  - intros Hnd.
    assert (Hgen : _gen_transform_infos current_spec target_spec = Ok [])
      by (eapply gen_same_placements_multi_dim; eauto; lia).
    split; [exact Hgen|].
    unfold redistribute_local_tensor.
    rewrite bool_decide_eq_false_2 by (intros H; exact (H Hmesh)).
    cbn zeta. rewrite Hc, Hgen. reflexivity.
  - intros Hnd. destruct Hwf as [Hlen _].
    unfold ndim in Hnd.
    destruct (placements current_spec) as [|p [|q ps]] eqn:Hps;
      cbn in Hlen; try lia.
    exists p. split; [reflexivity|].
    assert (Hgen : _gen_transform_infos current_spec target_spec
                   = Ok [{| mesh_dim := 0; src_dst_placements := (p, p);
                            logical_shape := shape (tensor_meta current_spec) |}]).
    { unfold _gen_transform_infos. cbn zeta. rewrite Hc.
      unfold ndim. rewrite bool_decide_eq_true_2 by lia.
      rewrite <- Hsame, Hps. reflexivity. }
    split; [exact Hgen|].
    unfold redistribute_local_tensor.
    rewrite bool_decide_eq_false_2 by (intros H; exact (H Hmesh)).
    cbn zeta. rewrite Hc, Hgen.
    destruct (mesh_shape (mesh current_spec)) as [|n [|n' ns]] eqn:Hms;
      cbn in Hlen; try lia.
    cbn. unfold redistribute_step, size. cbn. rewrite Hms. cbn.
    rewrite bool_decide_eq_true_2 by reflexivity. cbn.
    reflexivity.
Qed.
End DirectCall.

(** ** The theorems at work on concrete inputs *)

Lemma S3_src_wf c : spec_wf (S3_src c).
Proof.
  split; [reflexivity|]. cbn.
  repeat (apply List.Forall_cons; [intros d [= <-]; lia|]).
  apply List.Forall_nil.
Defined.

Lemma S3_dst_wf c : spec_wf (S3_dst c).
Proof.
  split; [reflexivity|]. cbn.
  apply List.Forall_cons; [discriminate|].
  apply List.Forall_cons; [intros d [= <-]; lia|].
  apply List.Forall_nil.
Defined.

Lemma in_mesh_2x2 (a b : Z) :
  0 ≤ a < 2 → 0 ≤ b < 2 → in_mesh (mk_mesh [2; 2] (Some [a; b])) [a; b].
Proof.
  intros Ha Hb. unfold in_mesh. cbn.
  constructor; [exact Ha|].
  constructor; [exact Hb|].
  constructor.
Defined.

(** C1 on scenario S3, for the worker at coordinate (1, 0). *)
Lemma C1_planner_sound_witness :
  ∃ steps,
    _gen_transform_infos (S3_src [1; 0]) (S3_dst [1; 0]) = Ok steps
    ∧ apply_steps steps [Shard 0; Shard 0] = Some [Replicate; Shard 0].
Proof.
  eexists. split; [vm_compute; reflexivity|].
  apply (C1_planner_sound (S3_src [1; 0]) (S3_dst [1; 0]));
    [reflexivity|apply S3_src_wf|apply S3_dst_wf|vm_compute; reflexivity].
Defined.

(** C2 for the worker at coordinate (1, 0). *)
Lemma C2_scenario_S3_witness :
  plan_triples (_gen_transform_infos (S3_src [1; 0]) (S3_dst [1; 0]))
  = Ok [(1, Shard 0, Replicate); (0, Shard 0, Replicate);
        (1, Replicate, Shard 0)].
Proof.
  apply (C2_scenario_S3 (S3_src [1; 0]) (S3_dst [1; 0]) [1; 0]);
    try reflexivity.
  apply in_mesh_2x2; lia.
Defined.


(** C4 at mesh dim 1 of scenario S3: the inner [Shard 0] is the last one, so
    the answer is decided by the sets of outer shards. *)
Lemma C4_reshardable_spec_witness :
  ∃ b, reshardable_from_src_to_dst [Shard 0; Shard 0] [Replicate; Shard 0] 1
       = Ok b
     ∧ (b = true ↔
        ∀ j, shards_before [Shard 0; Shard 0] 0 1 j
             ↔ shards_before [Replicate; Shard 0] 0 1 j).
Proof.
  destruct (C4_reshardable_spec [Shard 0; Shard 0] [Replicate; Shard 0] 1
              (Shard 0) (Shard 0) eq_refl eq_refl)
    as (b & Hb & _ & _ & Hset).
  exists b. split; [exact Hb|].
  apply Hset; [|reflexivity].
  intros (d & j & Hd & [Hj Hlast] & Hne).
  injection Hd as <-.
  destruct j as [|[|j]]; [|congruence|discriminate Hj].
  apply (Hlast 1%nat); [lia|reflexivity].
Defined.

(** C5 on scenario S3, for the workers at coordinates (0, 0) and (1, 1). *)
Lemma C5_plan_consistent_across_workers_witness :
  plan_triples (_gen_transform_infos (S3_src [0; 0]) (S3_dst [0; 0]))
  = plan_triples (_gen_transform_infos (S3_src [1; 1]) (S3_dst [1; 1])).
Proof.
  apply (C5_plan_consistent_across_workers (S3_src [0; 0]) (S3_dst [0; 0])
           [0; 0] [1; 1]); apply in_mesh_2x2; lia.
Defined.

(** C7 on mesh dim 1 of a 2x2 mesh: the forward step [Shard 0 -> Partial]
    raises. *)
Lemma C7_backward_flag_witness :
  redistribute_step (tensor:=nat) (mk_mesh [2; 2] (Some [0; 1])) [0; 1] false
    {| mesh_dim := 1; src_dst_placements := (Shard 0, Partial op_sum);
       logical_shape := [4; 4] |} 7%nat None
  = Throw RuntimeError.
Proof.
  exact (proj1 (C7_backward_flag (tensor:=nat) (mk_mesh [2; 2] (Some [0; 1]))
                  [0; 1] 1 0 2 op_sum [4; 4] 7%nat None eq_refl)).
Defined.

(** C8 on a 1-dimensional mesh: the forward source is [Partial], the
    gradient comes back replicated. *)
Lemma C8_backward_normalization_witness :
  ∃ grad_input,
    returns (Redistribute_backward (fun _ : nat => false)
               {| ctx_current_spec := _spec (dtensor_1d [Partial op_sum]);
                  ctx_async_op := false |}
               (dtensor_1d [Replicate])) grad_input
    ∧ placements (_spec grad_input) !! 0%nat = Some Replicate.
Proof.
  destruct (C8_backward_normalization (fun _ : nat => false)
              (dtensor_1d [Partial op_sum]) (dtensor_1d [Replicate])
              (mk_mesh [2] (Some [0])) [Partial op_sum] false
              {| ctx_current_spec := _spec (dtensor_1d [Partial op_sum]);
                 ctx_async_op := false |}
              (dtensor_1d [Partial op_sum]) (returns_Ret _))
    as [Hret Hnorm].
  destruct (Hret 7%nat (returns_Ret _)) as (grad_input & Hgrad & _).
  exists grad_input. split; [exact Hgrad|].
  destruct (Hnorm grad_input Hgrad) as [_ Hpartial].
  exact (Hpartial 0%nat op_sum eq_refl).
Defined.

(** C9 on scenario S3, for a worker outside the mesh. *)
Lemma C9_non_member_identity_witness :
  redistribute_local_tensor (fun _ : nat => false) 7%nat
    (mk_spec (mk_mesh [2; 2] None) [Shard 0; Shard 0] [4; 4])
    (mk_spec (mk_mesh [2; 2] None) [Replicate; Shard 0] [4; 4])
    false false
  = Ret 7%nat.
Proof.
  exact (proj1 (C9_non_member_identity (fun _ : nat => false) 7%nat
                  (mk_spec (mk_mesh [2; 2] None) [Shard 0; Shard 0] [4; 4])
                  (mk_spec (mk_mesh [2; 2] None) [Replicate; Shard 0] [4; 4])
                  false false eq_refl eq_refl)).
Defined.

(** C10 on the 2x2 mesh, source and target both [(Shard 0, Shard 0)]. *)
Lemma C10_same_placements_direct_call_witness :
  _gen_transform_infos (S3_src [0; 1]) (S3_src [0; 1]) = Ok []
  ∧ redistribute_local_tensor (fun _ : nat => false) 7%nat
      (S3_src [0; 1]) (S3_src [0; 1]) false false
    = Throw (AssertionError (Some "redistribute failed!")).
Proof.
  refine (proj1 (C10_same_placements_direct_call (fun _ : nat => false) 7%nat
                   (S3_src [0; 1]) (S3_src [0; 1]) [0; 1] false false
                   eq_refl eq_refl eq_refl _ (S3_src_wf _)) _).
  - apply in_mesh_2x2; lia.
  - vm_compute. discriminate.
Defined.

(** * Further properties of the planner and the executor *)

(** ** What the steps of a pass look like *)

Lemma pass_order_cons ltr idx (dims : list Z) :
  pass_order ltr dims →
  Forall (fun x => if ltr then idx + 1 ≤ x else x ≤ idx - 1) dims →
  pass_order ltr (idx :: dims).
Proof.
  unfold pass_order. intros Hs Hb.
  destruct ltr; constructor; try assumption;
    (eapply Forall_impl; [exact Hb|]); cbn; lia.
Qed.

Lemma search_steps_shape dst mesh_ndim shapes ltr (n : nat) :
  ∀ cur idx infos cur' infos',
    (visits_left idx mesh_ndim ltr ≤ n)%nat →
    search_transform_infos cur dst idx mesh_ndim shapes infos ltr
    = Ok (cur', infos') →
    ∃ new, infos' = infos ++ new
      ∧ (length new ≤ visits_left idx mesh_ndim ltr)%nat
      ∧ pass_order ltr (map mesh_dim new)
      ∧ Forall (step_of_pass dst mesh_ndim shapes ltr idx) new.
Proof.
  induction n as [|n IH]; intros cur idx infos cur' infos' Hn;
    rewrite search_transform_infos_unfold; unfold search_body.
  all: assert (Hnil : ∃ new : list _TransformInfo, infos = infos ++ new
      ∧ (length new ≤ visits_left idx mesh_ndim ltr)%nat
      ∧ pass_order ltr (map mesh_dim new)
      ∧ Forall (step_of_pass dst mesh_ndim shapes ltr idx) new)
    by (exists []; rewrite app_nil_r; repeat split;
        [cbn; lia|destruct ltr; constructor|constructor]).
  all: case_bool_decide as Heq; [now intros [= <- <-]|].
  all: case_bool_decide as Hout; [now intros [= <- <-]|].
  { rewrite (visits_left_step _ _ _ Hout) in Hn. lia. }
  clear Hnil.
  pose proof (visits_left_step idx mesh_ndim ltr Hout) as Hvl.
  rewrite Hvl in Hn.
  assert (Hweaken : ∀ new,
    Forall (step_of_pass dst mesh_ndim shapes ltr
              (if ltr then idx + 1 else idx - 1)) new →
    Forall (step_of_pass dst mesh_ndim shapes ltr idx) new
    ∧ Forall (fun x => if ltr then idx + 1 ≤ x else x ≤ idx - 1)
        (map mesh_dim new)).
  { intros new Hnew. split.
    - eapply Forall_impl; [exact Hnew|]. intros t (Hr & Ho & Hrest).
      split; [exact Hr|]. split; [destruct ltr; lia|exact Hrest].
    - apply Forall_fmap. eapply Forall_impl; [exact Hnew|].
      intros t (_ & Ho & _). cbn. destruct ltr; lia. }
  destruct (py_index cur idx) as [p|] eqn:Hp; [|discriminate].
  destruct (py_index dst idx) as [q|] eqn:Hq; [|discriminate].
  destruct (reshardable_from_src_to_dst cur dst idx) as [[|]|];
    cbn [mbind result_bind]; [| |discriminate].
  - case_bool_decide as Hpq; cbn [mbind result_bind].
    + destruct (py_index shapes idx) as [shp|] eqn:Hshp; [|discriminate].
      destruct (py_setitem cur idx q) as [cur1|]; [|discriminate].
      cbn [mbind result_bind fst snd].
      intros Hrec. apply IH in Hrec as (new & -> & Hlen & Hord & Hsteps);
        [|lia].
      destruct (Hweaken new Hsteps) as [Hsteps' Hdims].
      eexists (_ :: new). split; [now rewrite <- app_assoc|].
      split; [cbn [length]; lia|].
      split; [cbn [map mesh_dim]; now apply pass_order_cons|].
      constructor; [|exact Hsteps'].
      repeat split; cbn; try lia; [destruct ltr; lia|now right|exact Hshp].
    + cbn [fst snd]. intros Hrec.
      apply IH in Hrec as (new & -> & Hlen & Hord & Hsteps); [|lia].
      destruct (Hweaken new Hsteps) as [Hsteps' Hdims].
      exists new. split; [reflexivity|]. split; [lia|]. split; assumption.
  - destruct ltr; [discriminate|]. cbn [negb mbind result_bind].
    destruct (py_index shapes idx) as [shp|] eqn:Hshp; [|discriminate].
    destruct (py_setitem cur idx Replicate) as [cur1|]; [|discriminate].
    cbn [mbind result_bind].
    intros Hrec. apply IH in Hrec as (new & -> & Hlen & Hord & Hsteps);
      [|lia].
    destruct (Hweaken new Hsteps) as [Hsteps' Hdims].
    eexists (_ :: new). split; [now rewrite <- app_assoc|].
    split; [cbn [length]; lia|].
    split; [cbn [map mesh_dim]; now apply pass_order_cons|].
    constructor; [|exact Hsteps'].
    repeat split; cbn; try lia; [now left|exact Hshp].
Qed.

(** ** The plan as the concatenation of the two passes *)

Lemma gen_two_passes src_spec dst_spec steps :
  _gen_transform_infos src_spec dst_spec = Ok steps →
  ndim (mesh src_spec) ≠ 1 →
  ∃ c shapes cur1 cur2 steps1 steps2,
    get_coordinate (mesh src_spec) = Some c
    ∧ logical_shape_loop (mesh src_spec) c
        (enumerate (zip (placements src_spec) (placements dst_spec)))
        [shape (tensor_meta src_spec)] = Ok shapes
    ∧ steps = steps1 ++ steps2
    ∧ ((∃ shards, num_shards src_spec = Ok shards ∧ 1 < shards
        ∧ search_transform_infos (placements src_spec) (placements dst_spec)
            (ndim (mesh src_spec) - 1) (ndim (mesh src_spec)) shapes []
            false = Ok (cur1, steps1))
       ∨ (∃ shards, num_shards src_spec = Ok shards ∧ ¬ 1 < shards
          ∧ cur1 = placements src_spec ∧ steps1 = []))
    ∧ search_transform_infos cur1 (placements dst_spec) 0
        (ndim (mesh src_spec)) shapes steps1 true
      = Ok (cur2, steps1 ++ steps2).
Proof.
  unfold _gen_transform_infos. cbn zeta. intros Hgen Hnd.
  destruct (get_coordinate (mesh src_spec)) as [c|] eqn:Hc; [|discriminate].
  rewrite (bool_decide_eq_false_2 _ Hnd) in Hgen.
  destruct (logical_shape_loop _ _ _ _) as [shapes|] eqn:Hloop;
    [|discriminate].
  cbn [mbind result_bind] in Hgen.
  destruct (num_shards src_spec) as [shards|] eqn:Hshards; [|discriminate].
  cbn [mbind result_bind] in Hgen.
  set (first_pass := if bool_decide (1 < shards) then _ else _) in Hgen.
  destruct first_pass as [[cur1 steps1]|] eqn:Hfirst; [|discriminate].
  cbn [mbind result_bind fst snd] in Hgen.
  destruct (search_transform_infos cur1 _ 0 _ _ _ true)
    as [[cur2 infos2]|] eqn:Hsecond; [|discriminate].
  cbn [mbind result_bind snd] in Hgen. injection Hgen as <-.
  pose proof Hsecond as Hsplit.
  eapply search_sound in Hsplit as (steps2 & -> & _); [|reflexivity].
  exists c, shapes, cur1, cur2, steps1, steps2.
  split; [reflexivity|]. split; [exact Hloop|]. split; [reflexivity|].
  split; [|exact Hsecond].
  subst first_pass. case_bool_decide as Hs.
  - left. exists shards. auto.
  - right. injection Hfirst as <- <-. exists shards. auto.
Qed.

Lemma gen_one_dim src_spec dst_spec steps :
  _gen_transform_infos src_spec dst_spec = Ok steps →
  ndim (mesh src_spec) = 1 →
  ∃ src0 dst0,
    py_index (placements src_spec) 0 = Ok src0
    ∧ py_index (placements dst_spec) 0 = Ok dst0
    ∧ steps = [{| mesh_dim := 0; src_dst_placements := (src0, dst0);
                  logical_shape := shape (tensor_meta src_spec) |}].
Proof.
  unfold _gen_transform_infos. cbn zeta. intros Hgen Hnd.
  destruct (get_coordinate (mesh src_spec)); [|discriminate].
  rewrite (bool_decide_eq_true_2 _ Hnd) in Hgen.
  destruct (py_index (placements src_spec) 0) as [src0|]; [|discriminate].
  destruct (py_index (placements dst_spec) 0) as [dst0|]; [|discriminate].
  injection Hgen as <-. eauto.
Qed.

(** What the two passes contribute to a plan on a mesh that is not
    1-dimensional. *)
Lemma gen_steps_of_passes src_spec dst_spec steps :
  _gen_transform_infos src_spec dst_spec = Ok steps →
  ndim (mesh src_spec) ≠ 1 →
  ∃ c shapes steps1 steps2,
    get_coordinate (mesh src_spec) = Some c
    ∧ logical_shape_loop (mesh src_spec) c
        (enumerate (zip (placements src_spec) (placements dst_spec)))
        [shape (tensor_meta src_spec)] = Ok shapes
    ∧ steps = steps1 ++ steps2
    ∧ (Z.of_nat (length steps1) ≤ ndim (mesh src_spec)
       ∧ pass_order false (map mesh_dim steps1)
       ∧ Forall (step_of_pass (placements dst_spec) (ndim (mesh src_spec))
                   shapes false (ndim (mesh src_spec) - 1)) steps1)
    ∧ (Z.of_nat (length steps2) ≤ ndim (mesh src_spec)
       ∧ pass_order true (map mesh_dim steps2)
       ∧ Forall (step_of_pass (placements dst_spec) (ndim (mesh src_spec))
                   shapes true 0) steps2).
Proof.
  intros Hgen Hnd.
  destruct (gen_two_passes _ _ _ Hgen Hnd)
    as (c & shapes & cur1 & cur2 & steps1 & steps2
        & Hc & Hloop & -> & Hfirst & Hsecond).
  exists c, shapes, steps1, steps2. repeat split; try assumption.
  1-3: destruct Hfirst as [(shards & _ & _ & Hfirst)|(shards & _ & _ & _ & ->)];
    [eapply search_steps_shape in Hfirst
       as (new & Hnew & Hlen & Hord & Hsteps); [|reflexivity];
     cbn [app] in Hnew; subst new
    |].
  - revert Hlen. unfold visits_left, ndim. case_bool_decide; lia.
  - cbn. unfold ndim. lia.
  - exact Hord.
  - constructor.
  - exact Hsteps.
  - constructor.
  - eapply search_steps_shape in Hsecond
      as (new & Hnew & Hlen & _); [|reflexivity].
    apply app_inv_head in Hnew. subst new.
    revert Hlen. unfold visits_left, ndim. case_bool_decide; lia.
  - eapply search_steps_shape in Hsecond
      as (new & Hnew & _ & Hord & _); [|reflexivity].
    apply app_inv_head in Hnew. now subst new.
  - eapply search_steps_shape in Hsecond
      as (new & Hnew & _ & _ & Hsteps); [|reflexivity].
    apply app_inv_head in Hnew. now subst new.
Qed.

(** Every step of a plan is on a mesh dim of the mesh, so the
    [device_mesh.size(mesh_dim=i)] of the executor finds its size. *)
Theorem plan_mesh_dims_in_range (src_spec dst_spec : DTensorSpec)
    (steps : list _TransformInfo) :
  _gen_transform_infos src_spec dst_spec = Ok steps →
  Forall (fun t => 0 ≤ mesh_dim t < ndim (mesh src_spec)
                   ∧ ∃ n, size (mesh src_spec) (mesh_dim t) = Ok n) steps.
Proof.
  intros Hgen.
  assert (Hsize : ∀ i, 0 ≤ i < ndim (mesh src_spec) →
            ∃ n, size (mesh src_spec) i = Ok n).
  { intros i Hi. unfold ndim in Hi.
    destruct (lookup_lt_is_Some_2 (mesh_shape (mesh src_spec)) (Z.to_nat i))
      as [n Hn]; [lia|].
    exists n. unfold size. rewrite <- (Z2Nat.id i) by lia.
    now apply py_index_lookup. }
  destruct (decide (ndim (mesh src_spec) = 1)) as [H1|H1].
  - destruct (gen_one_dim _ _ _ Hgen H1) as (src0 & dst0 & _ & _ & ->).
    constructor; [|constructor]. cbn. split; [lia|]. apply Hsize. lia.
  - destruct (gen_steps_of_passes _ _ _ Hgen H1)
      as (c & shapes & steps1 & steps2 & _ & _ & -> & (_ & _ & H1s)
          & (_ & _ & H2s)).
    apply Forall_app. split.
    + eapply Forall_impl; [exact H1s|]. intros t (Hr & _). auto.
    + eapply Forall_impl; [exact H2s|]. intros t (Hr & _). auto.
Qed.

(** A plan is an inner-to-outer run of steps on strictly decreasing mesh
    dims followed by an outer-to-inner run on strictly increasing mesh
    dims: no mesh dim is stepped more than once per pass, and the plan has
    at most twice as many steps as the mesh has dimensions. *)
Theorem plan_two_monotone_runs (src_spec dst_spec : DTensorSpec)
    (steps : list _TransformInfo) :
  _gen_transform_infos src_spec dst_spec = Ok steps →
  (∃ steps1 steps2,
     steps = steps1 ++ steps2
     ∧ StronglySorted Z.gt (map mesh_dim steps1)
     ∧ StronglySorted Z.lt (map mesh_dim steps2))
  ∧ Z.of_nat (length steps) ≤ 2 * ndim (mesh src_spec).
Proof.
  intros Hgen.
  destruct (decide (ndim (mesh src_spec) = 1)) as [H1|H1].
  - destruct (gen_one_dim _ _ _ Hgen H1) as (src0 & dst0 & _ & _ & ->).
    split; [|cbn; lia].
    eexists [], _. split; [reflexivity|].
    split; repeat constructor.
  - destruct (gen_steps_of_passes _ _ _ Hgen H1)
      as (c & shapes & steps1 & steps2 & _ & _ & -> & (Hl1 & Ho1 & _)
          & (Hl2 & Ho2 & _)).
    split; [exists steps1, steps2; auto|].
    rewrite length_app. lia.
Qed.

(** A step never moves a mesh dim to a placement foreign to the request:
    its target is [Replicate] or the destination placement of its mesh
    dim. *)
Theorem plan_targets (src_spec dst_spec : DTensorSpec)
    (steps : list _TransformInfo) :
  _gen_transform_infos src_spec dst_spec = Ok steps →
  Forall (fun t => (src_dst_placements t).2 = Replicate
                   ∨ py_index (placements dst_spec) (mesh_dim t)
                     = Ok (src_dst_placements t).2) steps.
Proof.
  intros Hgen.
  destruct (decide (ndim (mesh src_spec) = 1)) as [H1|H1].
  - destruct (gen_one_dim _ _ _ Hgen H1) as (src0 & dst0 & _ & Hd & ->).
    constructor; [|constructor]. now right.
  - destruct (gen_steps_of_passes _ _ _ Hgen H1)
      as (c & shapes & steps1 & steps2 & _ & _ & -> & (_ & _ & H1s)
          & (_ & _ & H2s)).
    apply Forall_app. split.
    + eapply Forall_impl; [exact H1s|].
      intros t (_ & _ & [[_ Hr]|Hd] & _); auto.
    + eapply Forall_impl; [exact H2s|].
      intros t (_ & _ & [[Hf _]|Hd] & _); [discriminate|auto].
Qed.

(** ** Logical shapes *)

Lemma py_setitem_length {A} (l l' : list A) i x :
  py_setitem l i x = Ok l' → length l' = length l.
Proof.
  unfold py_setitem. destruct (py_pos l i); [|discriminate].
  intros [= <-]. apply length_insert.
Qed.

Lemma py_index_elem_of {A} (l : list A) i x : py_index l i = Ok x → x ∈ l.
Proof.
  intros H. apply py_index_Ok in H as (k & _ & Hk).
  eapply list_elem_of_lookup_2; eauto.
Qed.

(** The loop only appends to [mesh_dims_to_logical_shape], and what it
    appends has the rank of what was there. *)
Lemma logical_shape_loop_ranks m c (rank : nat) enum : ∀ L L',
  Forall (fun s : list Z => length s = rank) L →
  logical_shape_loop m c enum L = Ok L' →
  Forall (fun s : list Z => length s = rank) L' ∧ ∃ ext, L' = L ++ ext.
Proof.
  induction enum as [|[i [src dst]] rest IH]; intros L L' HL;
    cbn [logical_shape_loop].
  - intros [= <-]. split; [exact HL|]. exists []. now rewrite app_nil_r.
  - destruct (py_index L i) as [cur|] eqn:Hcur; [|discriminate].
    cbn [mbind result_bind].
    assert (Hrank : length cur = rank).
    { apply py_index_elem_of in Hcur. rewrite Forall_forall in HL. auto. }
    assert (Hsnoc : ∀ s L', length s = rank →
              logical_shape_loop m c rest (L ++ [s]) = Ok L' →
              Forall (fun s : list Z => length s = rank) L'
              ∧ ∃ ext, L' = L ++ ext).
    { intros s L1 Hs Hrec. apply IH in Hrec as [Hr [ext ->]].
      - split; [exact Hr|]. exists ([s] ++ ext). now rewrite app_assoc.
      - apply Forall_app. split; [exact HL|]. now constructor. }
    destruct src as [|d|op]; [now apply Hsnoc| |now apply Hsnoc].
    destruct (bool_decide _); [|now apply IH].
    destruct (size m i); [|discriminate]. cbn [mbind result_bind].
    destruct (py_index cur d); [|discriminate]. cbn [mbind result_bind].
    destruct (py_index c i); [|discriminate]. cbn [mbind result_bind].
    destruct (_local_shard_size_on_dim _ _ _); [|discriminate].
    cbn [mbind result_bind].
    destruct (py_setitem cur d _) as [new|] eqn:Hnew; [|discriminate].
    cbn [mbind result_bind]. apply Hsnoc.
    apply py_setitem_length in Hnew. lia.
Qed.

(** The logical shape of every step has the rank of the global shape of
    the source, and a step on mesh dim 0 carries that global shape itself. *)
Theorem plan_logical_shapes (src_spec dst_spec : DTensorSpec)
    (steps : list _TransformInfo) :
  _gen_transform_infos src_spec dst_spec = Ok steps →
  Forall (fun t =>
            length (logical_shape t) = length (shape (tensor_meta src_spec))
            ∧ (mesh_dim t = 0 →
               logical_shape t = shape (tensor_meta src_spec))) steps.
Proof.
  intros Hgen.
  destruct (decide (ndim (mesh src_spec) = 1)) as [H1|H1].
  - destruct (gen_one_dim _ _ _ Hgen H1) as (src0 & dst0 & _ & _ & ->).
    constructor; [|constructor]. cbn. auto.
  - destruct (gen_steps_of_passes _ _ _ Hgen H1)
      as (c & shapes & steps1 & steps2 & _ & Hloop & -> & (_ & _ & H1s)
          & (_ & _ & H2s)).
    eapply logical_shape_loop_ranks in Hloop as [Hranks [ext ->]];
      [|constructor; [reflexivity|constructor]].
    assert (Hstep : ∀ ltr idx t,
      step_of_pass (placements dst_spec) (ndim (mesh src_spec))
        ([shape (tensor_meta src_spec)] ++ ext) ltr idx t →
      length (logical_shape t) = length (shape (tensor_meta src_spec))
      ∧ (mesh_dim t = 0 → logical_shape t = shape (tensor_meta src_spec))).
    { intros ltr idx t (_ & _ & _ & Hshape). split.
      - apply py_index_elem_of in Hshape.
        rewrite Forall_forall in Hranks. auto.
      - intros H0. rewrite H0 in Hshape.
        apply py_index_Ok in Hshape as (k & Hk & Hlook).
        apply py_pos_nonneg in Hk; [|lia].
        assert (k = 0%nat) as -> by lia. cbn in Hlook. congruence. }
    apply Forall_app. split; (eapply Forall_impl; [eassumption|]);
      intros t; apply Hstep.
Qed.

(** ** When the planner returns *)

Lemma last_shard_exists (cur : list Placement) d : ∀ j : nat,
  cur !! j = Some (Shard d) →
  ∃ j0 : nat, (j ≤ j0)%nat ∧ last_shard_of cur d j0.
Proof.
  induction cur as [|p l IH] using rev_ind; intros j Hj; [discriminate|].
  pose proof (lookup_lt_Some _ _ _ Hj) as Hlt.
  rewrite length_app in Hlt. cbn in Hlt.
  destruct (decide (p = Shard d)) as [->|Hp].
  - exists (length l). split; [lia|]. now apply last_shard_of_snoc_hit.
  - assert (Hjl : l !! j = Some (Shard d)).
    { destruct (decide (j < length l)%nat) as [Hl|Hl].
      - now rewrite lookup_app_l in Hj.
      - assert (j = length l) as -> by lia.
        rewrite list_lookup_middle in Hj by reflexivity. congruence. }
    destruct (IH j Hjl) as (j0 & Hle & Hlast).
    exists j0. split; [exact Hle|]. now apply last_shard_of_snoc_miss.
Qed.

Lemma outer_nested_shard_iff (cur : list Placement) (i : nat) :
  outer_nested_shard cur i ↔
  ∃ d (j : nat), (i < j)%nat
    ∧ cur !! i = Some (Shard d) ∧ cur !! j = Some (Shard d).
Proof.
  split.
  - intros (d & j & Hi & [Hj Hlast] & Hne). exists d, j.
    split; [|auto].
    destruct (decide (i < j)%nat) as [|Hge]; [assumption|].
    exfalso. apply (Hlast i); [lia|assumption].
  - intros (d & j & Hlt & Hi & Hj).
    destruct (last_shard_exists cur d j Hj) as (j0 & Hle & Hlast).
    exists d, j0. split; [exact Hi|]. split; [exact Hlast|lia].
Qed.

(** The predicate on a mesh dim of both tuples, as one equivalence. *)
Lemma reshardable_cases (cur dst : list Placement) (i : nat) (c t : Placement) :
  cur !! i = Some c →
  dst !! i = Some t →
  ∃ b, reshardable_from_src_to_dst cur dst (Z.of_nat i) = Ok b
    ∧ (b = true ↔
       ¬ outer_nested_shard cur i
       ∧ ∀ d', t = Shard d' → agree_below cur dst d' i).
Proof.
  intros Hc Ht. unfold reshardable_from_src_to_dst.
  rewrite (py_index_lookup _ _ _ Hc), (py_index_lookup _ _ _ Ht).
  cbn [mbind result_bind].
  destruct (early_exit_spec cur i c Hc) as [[-> Houter]|[-> Hinner]].
  - exists false. split; [reflexivity|].
    split; [discriminate|]. intros [Hno _]. contradiction.
  - destruct t as [|d'|op].
    + exists true. split; [reflexivity|].
      split; [|reflexivity]. intros _. split; [exact Hinner|discriminate].
    + pose proof (mesh_sharding_scan_spec cur dst d' i (zip cur dst)
                    0%nat [] []) as Hscan.
      cbn zeta in Hscan. change (Z.of_nat 0) with 0 in Hscan.
      unfold enumerate.
      destruct (mesh_sharding_scan _ d' (Z.of_nat i) [] []) as [cs ts].
      cbn [fst snd] in Hscan.
      exists (bool_decide (cs = ts)). split; [reflexivity|].
      rewrite bool_decide_eq_true.
      assert (Hiff : cs = ts ↔ agree_below cur dst d' i).
      { apply Hscan.
        - rewrite length_zip. apply lookup_lt_Some in Hc, Ht. lia.
        - intros k [p q] Hk. cbn [Nat.add fst snd].
          apply lookup_zip_with_Some in Hk as (x & y & [= -> ->] & Hx & Hy).
          auto.
        - constructor.
        - constructor.
        - split; [intros _ j Hj; lia|reflexivity]. }
      rewrite Hiff. split.
      * intros Hag. split; [exact Hinner|]. now intros d'' [= <-].
      * intros [_ Hag]. now apply Hag.
    + exists true. split; [reflexivity|].
      split; [|reflexivity]. intros _. split; [exact Hinner|discriminate].
Qed.

(** One visit, with everything in range: the search goes on from
    [cur] with [cur[idx]] set to the destination placement when the mesh
    dim is reshardable (a step is appended if that changes it), to
    [Replicate] when it is not and the pass runs from inside out, and
    raises RuntimeError otherwise. *)
Lemma search_visit (cur dst : list Placement) (k : nat) mesh_ndim shapes infos
    ltr p q :
  cur ≠ dst →
  Z.of_nat k < mesh_ndim →
  cur !! k = Some p →
  dst !! k = Some q →
  (k < length shapes)%nat →
  ∃ b shp,
    reshardable_from_src_to_dst cur dst (Z.of_nat k) = Ok b
    ∧ shapes !! k = Some shp
    ∧ (b = true ↔
       ¬ outer_nested_shard cur k
       ∧ ∀ d', q = Shard d' → agree_below cur dst d' k)
    ∧ search_transform_infos cur dst (Z.of_nat k) mesh_ndim shapes infos ltr
      = if b then
          search_transform_infos (<[k := q]> cur) dst
            (if ltr then Z.of_nat k + 1 else Z.of_nat k - 1)
            mesh_ndim shapes
            (if bool_decide (p ≠ q) then
               infos ++ [{| mesh_dim := Z.of_nat k;
                            src_dst_placements := (p, q);
                            logical_shape := shp |}]
             else infos)
            ltr
        else if ltr then Raise RuntimeError
        else
          search_transform_infos (<[k := Replicate]> cur) dst
            (Z.of_nat k - 1) mesh_ndim shapes
            (infos ++ [{| mesh_dim := Z.of_nat k;
                          src_dst_placements := (p, Replicate);
                          logical_shape := shp |}])
            ltr.
Proof.
  intros Hne Hk Hp Hq Hshapes.
  destruct (reshardable_cases cur dst k p q Hp Hq) as (b & Hb & Hiff).
  destruct (lookup_lt_is_Some_2 shapes k Hshapes) as [shp Hshp].
  exists b, shp. split; [exact Hb|]. split; [exact Hshp|].
  split; [exact Hiff|].
  pose proof (lookup_lt_Some _ _ _ Hp) as Hklt.
  rewrite search_transform_infos_unfold. unfold search_body.
  rewrite (bool_decide_eq_false_2 _ Hne).
  rewrite bool_decide_eq_false_2 by lia.
  rewrite (py_index_lookup _ _ _ Hp), (py_index_lookup _ _ _ Hq), Hb.
  cbn [mbind result_bind].
  rewrite (py_index_lookup _ _ _ Hshp), !py_setitem_nat by assumption.
  cbn [mbind result_bind].
  destruct b.
  - case_bool_decide as Hpq; cbn [mbind result_bind fst snd].
    + reflexivity.
    + subst q. now rewrite list_insert_id.
  - destruct ltr; reflexivity.
Qed.

Lemma visited_ok_no_nested (cur dst : list Placement) idx :
  idx < 0 → visited_ok cur dst idx → no_nested_shard cur.
Proof.
  intros Hidx Hok i j d Hne Hi Hj.
  destruct (Hok i d ltac:(lia) Hi) as [_ Hnn].
  apply (Hnn j); [lia|congruence|exact Hj].
Qed.

(** The inner-to-outer pass on tuples of the length of the mesh returns,
    and leaves either the destination or a tuple free of nested shards. *)
Lemma inner_to_outer_clears dst mesh_ndim shapes (n : nat) :
  Z.of_nat (length dst) = mesh_ndim →
  (length dst ≤ length shapes)%nat →
  ∀ cur idx infos,
    (visits_left idx mesh_ndim false ≤ n)%nat →
    idx < mesh_ndim →
    length cur = length dst →
    visited_ok cur dst idx →
    ∃ cur1 infos1,
      search_transform_infos cur dst idx mesh_ndim shapes infos false
      = Ok (cur1, infos1)
      ∧ length cur1 = length dst
      ∧ (cur1 = dst ∨ no_nested_shard cur1).
Proof.
  intros Hnd Hshapes.
  induction n as [|n IH]; intros cur idx infos Hn Hidx Hlen Hok.
  all: destruct (decide (cur = dst)) as [->|Hne];
    [exists dst, infos; rewrite search_same_placements; auto|].
  all: destruct (decide (idx < 0)) as [Hneg|Hpos];
    [exists cur, infos; rewrite search_out_of_range by lia;
     split; [reflexivity|]; split; [exact Hlen|];
     right; eapply visited_ok_no_nested; eauto|].
  { rewrite visits_left_step in Hn by lia. lia. }
  rewrite visits_left_step in Hn by lia.
  assert (Hk : idx = Z.of_nat (Z.to_nat idx)) by lia.
  set (k := Z.to_nat idx) in *. clearbody k. subst idx.
  destruct (lookup_lt_is_Some_2 cur k ltac:(lia)) as [p Hp].
  destruct (lookup_lt_is_Some_2 dst k ltac:(lia)) as [q Hq].
  destruct (search_visit cur dst k mesh_ndim shapes infos false p q
              Hne Hidx Hp Hq ltac:(lia))
    as (b & shp & _ & _ & Hiff & ->).
  assert (Hnested : ∀ d (j : nat), (k < j)%nat →
            cur !! k = Some (Shard d) → cur !! j = Some (Shard d) →
            outer_nested_shard cur k).
  { intros d j Hj Hkd Hjd. apply outer_nested_shard_iff. eauto. }
  destruct b.
  - destruct (proj1 Hiff eq_refl) as [Hinner Hagree].
    apply IH; [lia|lia|now rewrite length_insert|].
    intros j d Hj Hjd.
    destruct (decide (j = k)) as [->|Hjk].
    + rewrite list_lookup_insert_eq in Hjd by (apply lookup_lt_Some in Hp; lia).
      injection Hjd as ->. split.
      * intros k' Hk'. rewrite list_lookup_insert_ne by lia.
        apply Hagree; [reflexivity|lia].
      * intros j' Hj' Hne' Hj'd.
        rewrite list_lookup_insert_ne in Hj'd by lia.
        destruct (Hok j' d ltac:(lia) Hj'd) as [Ha _].
        apply Hinner. apply (Hnested d j'); [lia| |exact Hj'd].
        apply Ha; [lia|exact Hq].
    + rewrite list_lookup_insert_ne in Hjd by lia.
      destruct (Hok j d ltac:(lia) Hjd) as [Ha Hnn]. split.
      * intros k' Hk'. rewrite list_lookup_insert_ne by lia.
        apply Ha. lia.
      * intros j' Hj' Hne'.
        destruct (decide (j' = k)) as [->|Hj'k].
        -- rewrite list_lookup_insert_eq by (apply lookup_lt_Some in Hp; lia).
           intros [= ->]. apply Hinner.
           apply (Hnested d j); [lia| |exact Hjd].
           apply Ha; [lia|exact Hq].
        -- rewrite list_lookup_insert_ne by lia. apply Hnn; [lia|exact Hne'].
  - apply IH; [lia|lia|now rewrite length_insert|].
    intros j d Hj Hjd.
    destruct (decide (j = k)) as [->|Hjk].
    + rewrite list_lookup_insert_eq in Hjd by (apply lookup_lt_Some in Hp; lia).
      discriminate.
    + rewrite list_lookup_insert_ne in Hjd by lia.
      destruct (Hok j d ltac:(lia) Hjd) as [Ha Hnn]. split.
      * intros k' Hk'. rewrite list_lookup_insert_ne by lia.
        apply Ha. lia.
      * intros j' Hj' Hne'.
        destruct (decide (j' = k)) as [->|Hj'k].
        -- rewrite list_lookup_insert_eq by (apply lookup_lt_Some in Hp; lia).
           discriminate.
        -- rewrite list_lookup_insert_ne by lia. apply Hnn; [lia|exact Hne'].
Qed.

(** The outer-to-inner pass returns when, from the mesh dim it stands on
    inwards, no tensor dim is sharded twice (the mesh dims it has passed
    agree with the destination already). *)
Lemma outer_to_inner_returns dst mesh_ndim shapes (n : nat) :
  Z.of_nat (length dst) = mesh_ndim →
  (length dst ≤ length shapes)%nat →
  ∀ cur idx infos,
    (visits_left idx mesh_ndim true ≤ n)%nat →
    0 ≤ idx →
    length cur = length dst →
    (∀ j : nat, Z.of_nat j < idx → cur !! j = dst !! j) →
    no_nested_from cur idx →
    ∃ st, search_transform_infos cur dst idx mesh_ndim shapes infos true
          = Ok st.
Proof.
  intros Hnd Hshapes.
  induction n as [|n IH]; intros cur idx infos Hn Hidx Hlen Hpre Hnn.
  all: destruct (decide (cur = dst)) as [->|Hne];
    [eexists; now rewrite search_same_placements|].
  all: destruct (decide (mesh_ndim ≤ idx)) as [Hout|Hin];
    [eexists; now rewrite search_out_of_range by lia|].
  { rewrite visits_left_step in Hn by lia. lia. }
  rewrite visits_left_step in Hn by lia.
  assert (Hk : idx = Z.of_nat (Z.to_nat idx)) by lia.
  set (k := Z.to_nat idx) in *. clearbody k. subst idx.
  destruct (lookup_lt_is_Some_2 cur k ltac:(lia)) as [p Hp].
  destruct (lookup_lt_is_Some_2 dst k ltac:(lia)) as [q Hq].
  destruct (search_visit cur dst k mesh_ndim shapes infos true p q
              Hne ltac:(lia) Hp Hq ltac:(lia))
    as (b & shp & _ & _ & Hiff & ->).
  assert (b = true) as ->.
  { apply Hiff. split.
    - intros Houter. apply outer_nested_shard_iff in Houter
        as (d & j & Hj & Hkd & Hjd).
      apply (Hnn k j d); [lia|exact Hj|exact Hkd|exact Hjd].
    - intros d' _ j Hj. rewrite Hpre by lia. reflexivity. }
  apply IH; [lia|lia|now rewrite length_insert| |].
  - intros j Hj. destruct (decide (j = k)) as [->|Hjk].
    + rewrite list_lookup_insert_eq by (apply lookup_lt_Some in Hp; lia).
      now rewrite Hq.
    + rewrite list_lookup_insert_ne by lia. apply Hpre. lia.
  - intros i j d Hi Hij.
    rewrite !list_lookup_insert_ne by lia. apply Hnn; lia.
Qed.

(** There is a logical shape for every mesh dim the searches can visit. *)
Lemma logical_shape_loop_length m c zs : ∀ (i : nat) L L',
  length L = S i →
  (i + length zs ≤ length (mesh_shape m))%nat →
  logical_shape_loop m c (enumerate_from (Z.of_nat i) zs) L = Ok L' →
  (i + length zs ≤ length L')%nat.
Proof.
  induction zs as [|[src dst] rest IH]; intros i L L' HL Hlen;
    cbn [enumerate_from logical_shape_loop length] in *.
  - intros [= <-]. lia.
  - destruct (py_index L (Z.of_nat i)) as [cur|]; [|discriminate].
    cbn [mbind result_bind].
    replace (Z.of_nat i + 1) with (Z.of_nat (S i)) by lia.
    assert (Hsnoc : ∀ s, logical_shape_loop m c
                           (enumerate_from (Z.of_nat (S i)) rest) (L ++ [s])
                         = Ok L' →
                         (i + S (length rest) ≤ length L')%nat).
    { intros s Hrec. apply IH in Hrec; [lia| |lia].
      rewrite length_app. cbn. lia. }
    destruct src as [|d|op]; [apply Hsnoc| |apply Hsnoc].
    case_bool_decide as Hlast.
    + destruct (size m _); [|discriminate]. cbn [mbind result_bind].
      destruct (py_index cur d); [|discriminate]. cbn [mbind result_bind].
      destruct (py_index c _); [|discriminate]. cbn [mbind result_bind].
      destruct (_local_shard_size_on_dim _ _ _); [|discriminate].
      cbn [mbind result_bind].
      destruct (py_setitem cur d _); [|discriminate].
      cbn [mbind result_bind]. apply Hsnoc.
    + unfold ndim in Hlast. destruct rest; [|cbn in Hlen; lia].
      cbn. intros [= <-]. lia.
Qed.

Lemma gen_setup src_spec dst_spec c :
  mesh src_spec = mesh dst_spec →
  spec_wf src_spec →
  spec_wf dst_spec →
  get_coordinate (mesh src_spec) = Some c →
  in_mesh (mesh src_spec) c →
  ∃ shapes shards,
    logical_shape_loop (mesh src_spec) c
      (enumerate (zip (placements src_spec) (placements dst_spec)))
      [shape (tensor_meta src_spec)] = Ok shapes
    ∧ (length (placements dst_spec) ≤ length shapes)%nat
    ∧ num_shards src_spec = Ok shards.
Proof.
  intros Hmesh [Hsrc Hdims] [Hdst _] Hc Hin. rewrite <- Hmesh in Hdst.
  assert (Hzip : length (zip (placements src_spec) (placements dst_spec))
                 = length (mesh_shape (mesh src_spec)))
    by (rewrite length_zip; lia).
  destruct (logical_shape_loop_ok (mesh src_spec) c
              (length (shape (tensor_meta src_spec)))
              (zip (placements src_spec) (placements dst_spec)) 0
              [shape (tensor_meta src_spec)]) as [shapes Hloop]; auto.
  { rewrite Forall_forall. intros [p q] Hpq d Hd. cbn in Hd. subst p.
    apply elem_of_zip_l in Hpq. rewrite Forall_forall in Hdims. eauto. }
  { lia. }
  change (Z.of_nat 0) with 0 in Hloop.
  destruct (num_shards_from_ok (mesh src_spec) (placements src_spec) 0 1)
    as [shards Hshards]; [lia|].
  change (Z.of_nat 0) with 0 in Hshards.
  exists shapes, shards. split; [exact Hloop|]. split; [|exact Hshards].
  eapply (logical_shape_loop_length _ _ _ 0) in Hloop; [|reflexivity|lia].
  lia.
Qed.

(** The planner returns a plan for every two well-formed specs on the mesh
    of a member worker when the mesh is 1-dimensional, or the source has
    more than one shard (the inner-to-outer pass then runs and clears the
    nested shards), or the source shards no tensor dim twice. *)
Theorem planner_returns (src_spec dst_spec : DTensorSpec) (c : list Z) :
  mesh src_spec = mesh dst_spec →
  spec_wf src_spec →
  spec_wf dst_spec →
  get_coordinate (mesh src_spec) = Some c →
  in_mesh (mesh src_spec) c →
  ndim (mesh src_spec) = 1
  ∨ (∃ shards, num_shards src_spec = Ok shards ∧ 1 < shards)
  ∨ no_nested_shard (placements src_spec) →
  ∃ steps, _gen_transform_infos src_spec dst_spec = Ok steps.
Proof.
  intros Hmesh Hwf Hwf' Hc Hin Hcase.
  destruct (gen_setup _ _ _ Hmesh Hwf Hwf' Hc Hin)
    as (shapes & shards & Hloop & Hshapes & Hshards).
  destruct Hwf as [Hsrc _], Hwf' as [Hdst _]. rewrite <- Hmesh in Hdst.
  unfold _gen_transform_infos. cbn zeta. rewrite Hc.
  case_bool_decide as H1.
  - unfold ndim in H1.
    destruct (placements src_spec) as [|p [|p' ps]]; cbn in Hsrc; try lia.
    destruct (placements dst_spec) as [|q [|q' qs]]; cbn in Hdst; try lia.
    cbn. eauto.
  - rewrite Hloop, Hshards. cbn [mbind result_bind].
    assert (Hnd : Z.of_nat (length (placements dst_spec))
                  = ndim (mesh src_spec)) by (unfold ndim; lia).
    assert (Hsecond : ∀ cur1 infos1,
      length cur1 = length (placements dst_spec) →
      cur1 = placements dst_spec ∨ no_nested_shard cur1 →
      ∃ st, search_transform_infos cur1 (placements dst_spec) 0
              (ndim (mesh src_spec)) shapes infos1 true = Ok st).
    { intros cur1 infos1 Hlen [->|Hnn].
      - eexists. apply search_same_placements.
      - eapply outer_to_inner_returns; eauto; [lia|lia|].
        intros i j d _ Hij. apply Hnn. lia. }
    case_bool_decide as Hgate.
    + destruct (inner_to_outer_clears (placements dst_spec)
                  (ndim (mesh src_spec)) shapes _ Hnd Hshapes
                  (placements src_spec) (ndim (mesh src_spec) - 1) []
                  (le_n _)) as (cur1 & infos1 & -> & Hlen1 & Hres);
        [lia|lia| |].
      { intros j d Hj Hjd. apply lookup_lt_Some in Hjd. lia. }
      cbn [mbind result_bind fst snd].
      destruct (Hsecond cur1 infos1 Hlen1 Hres) as [st ->].
      cbn. eauto.
    + cbn [mbind result_bind fst snd].
      destruct Hcase as [Hone|[(shards' & Hs' & Hgt)|Hnn]];
        [contradiction|congruence|].
      destruct (Hsecond (placements src_spec) [] ltac:(lia) (or_intror Hnn))
        as [st ->].
      cbn. eauto.
Qed.

(** The outer-to-inner pass cannot get past a nested shard: started at or
    before a mesh dim [i] whose placement shards a tensor dim that a mesh
    dim further in shards again, and with a difference left to make at or
    after [i], it raises RuntimeError. *)
Lemma outer_to_inner_raises dst mesh_ndim shapes (i j i' : nat) d :
  Z.of_nat (length dst) = mesh_ndim →
  (length dst ≤ length shapes)%nat →
  (i < j)%nat → (i ≤ i')%nat →
  ∀ (n : nat) cur (k : nat) infos,
    (i = k + n)%nat →
    length cur = length dst →
    cur !! i = Some (Shard d) →
    cur !! j = Some (Shard d) →
    cur !! i' ≠ dst !! i' →
    search_transform_infos cur dst (Z.of_nat k) mesh_ndim shapes infos true
    = Raise RuntimeError.
Proof.
  intros Hnd Hshapes Hij Hii'.
  induction n as [|n IH]; intros cur k infos Hk Hlen Hi Hj Hdiff.
  all: assert (Hne : cur ≠ dst) by (intros ->; now apply Hdiff).
  all: pose proof (lookup_lt_Some _ _ _ Hj) as Hjlt.
  all: destruct (lookup_lt_is_Some_2 cur k ltac:(lia)) as [p Hp].
  all: destruct (lookup_lt_is_Some_2 dst k ltac:(lia)) as [q Hq].
  all: destruct (search_visit cur dst k mesh_ndim shapes infos true p q
                   Hne ltac:(lia) Hp Hq ltac:(lia))
         as (b & shp & _ & _ & Hiff & ->).
  - assert (k = i) as -> by lia.
    destruct b; [|reflexivity].
    exfalso. apply (proj1 (proj1 Hiff eq_refl)).
    apply outer_nested_shard_iff. eauto.
  - destruct b; [|reflexivity].
    replace (Z.of_nat k + 1) with (Z.of_nat (S k)) by lia.
    apply IH; [lia|now rewrite length_insert|..];
      rewrite ?list_lookup_insert_ne by lia; assumption.
Qed.

(** Nested shards that the gate [num_shards > 1] lets through. When the
    source has at most one shard in all (its sharded mesh dims have size
    1) the inner-to-outer pass is skipped; if the source then shards a
    tensor dim at two mesh dims [i < j], and differs from the destination
    at or after [i], the planner raises RuntimeError. *)
Theorem planner_raises_on_uncleared_nesting (src_spec dst_spec : DTensorSpec)
    (c : list Z) (shards : Z) (i j i' : nat) (d : Z) :
  mesh src_spec = mesh dst_spec →
  spec_wf src_spec →
  spec_wf dst_spec →
  get_coordinate (mesh src_spec) = Some c →
  in_mesh (mesh src_spec) c →
  num_shards src_spec = Ok shards →
  shards ≤ 1 →
  (i < j)%nat →
  placements src_spec !! i = Some (Shard d) →
  placements src_spec !! j = Some (Shard d) →
  (i ≤ i')%nat →
  placements src_spec !! i' ≠ placements dst_spec !! i' →
  _gen_transform_infos src_spec dst_spec = Raise RuntimeError.
Proof.
  intros Hmesh Hwf Hwf' Hc Hin Hshards Hgate Hij Hi Hj Hii' Hdiff.
  destruct (gen_setup _ _ _ Hmesh Hwf Hwf' Hc Hin)
    as (shapes & shards' & Hloop & Hshapes & Hshards').
  destruct Hwf as [Hsrc _], Hwf' as [Hdst _]. rewrite <- Hmesh in Hdst.
  pose proof (lookup_lt_Some _ _ _ Hj) as Hjlt.
  unfold _gen_transform_infos. cbn zeta. rewrite Hc.
  rewrite bool_decide_eq_false_2 by (unfold ndim; lia).
  rewrite Hloop, Hshards. cbn [mbind result_bind].
  rewrite bool_decide_eq_false_2 by lia. cbn [mbind result_bind fst snd].
  change 0 with (Z.of_nat 0).
  erewrite (outer_to_inner_raises (placements dst_spec) _ shapes i j i' d);
    [reflexivity|unfold ndim; lia|exact Hshapes|exact Hij|exact Hii'
    |symmetry; apply Nat.add_0_l|lia|exact Hi|exact Hj|exact Hdiff].
Qed.

(** The inner-to-outer pass clears nested sharding: run from the innermost
    mesh dim on tuples of the length of the mesh, it returns, and what it
    leaves of [src_placements] is the destination itself or a tuple in
    which no tensor dim is sharded by two mesh dims. *)
Theorem inner_to_outer_pass_clears_nesting (src dst : list Placement)
    (shapes : list (list Z)) (infos : list _TransformInfo) :
  length src = length dst →
  (length dst ≤ length shapes)%nat →
  ∃ cur1 infos1,
    search_transform_infos src dst (Z.of_nat (length dst) - 1)
      (Z.of_nat (length dst)) shapes infos false = Ok (cur1, infos1)
    ∧ (cur1 = dst ∨ no_nested_shard cur1).
Proof.
  intros Hlen Hshapes.
  destruct (inner_to_outer_clears dst (Z.of_nat (length dst)) shapes _
              eq_refl Hshapes src (Z.of_nat (length dst) - 1) infos (le_n _))
    as (cur1 & infos1 & Hres & _ & Hclear); [lia|exact Hlen| |eauto].
  intros j d Hj Hjd. apply lookup_lt_Some in Hjd. lia.
Qed.

(** ** What the executor raises of its own *)

Section ExecutorRaises.
Context {tensor : Type} (is_async : tensor → bool).


(** A step that does not raise is a plain [continue] with the local
    tensor, or one external call whose result becomes the local tensor. *)
Lemma step_shape (device_mesh : DeviceMesh) (my_coordinate : list Z)
    (is_backward : bool) (t : _TransformInfo) (n ci : Z)
    (local_tensor : tensor) (new_local_tensor : option tensor) :
  size device_mesh (mesh_dim t) = Ok n →
  py_index my_coordinate (mesh_dim t) = Ok ci →
  ¬ (is_backward = false ∧ is_shard (src_dst_placements t).1 = true
     ∧ is_partial (src_dst_placements t).2 = true) →
  redistribute_step device_mesh my_coordinate is_backward t local_tensor
    new_local_tensor = Ret (local_tensor, Some local_tensor)
  ∨ ∃ c, redistribute_step device_mesh my_coordinate is_backward t
           local_tensor new_local_tensor
         = Call c (fun r => Ret (r, Some r)).
Proof.
  destruct t as [i [from to] shp]. cbn [mesh_dim src_dst_placements fst snd].
  intros Hsize Hcoord Hok. unfold redistribute_step. cbn. rewrite Hsize. cbn.
  case_bool_decide as Heq; [now left|].
  destruct to as [|d'|op'], from as [|d|op], is_backward; cbn;
    rewrite ?Hcoord; cbn; try contradiction;
    repeat case_bool_decide; cbn; try congruence.
  all: first [ now left | right; eexists; reflexivity
             | exfalso; apply Hok; auto ].
Qed.

Lemma loop_then_never_throws {A} (device_mesh : DeviceMesh)
    (my_coordinate : list Z) (is_backward : bool)
    (finish : option tensor → prog tensor A) (steps : list _TransformInfo) :
  (∀ r, never_throws (finish (Some r))) →
  Forall (fun t =>
            (∃ n, size device_mesh (mesh_dim t) = Ok n)
            ∧ (∃ ci, py_index my_coordinate (mesh_dim t) = Ok ci)
            ∧ ¬ (is_backward = false
                 ∧ is_shard (src_dst_placements t).1 = true
                 ∧ is_partial (src_dst_placements t).2 = true)) steps →
  ∀ local_tensor new_local_tensor,
    steps ≠ [] ∨ is_Some new_local_tensor →
    never_throws
      (redistribute_loop device_mesh my_coordinate is_backward steps
         local_tensor new_local_tensor ≫= finish).
Proof.
  intros Hfinish Hsteps.
  induction Hsteps as [|t rest ([n Hn] & [ci Hci] & Hok) _ IH];
    intros local_tensor new_local_tensor Hstart.
  - destruct Hstart as [Hne|[r ->]]; [contradiction|]. cbn. apply Hfinish.
  - cbn [redistribute_loop].
    destruct (step_shape device_mesh my_coordinate is_backward t n ci
                local_tensor new_local_tensor Hn Hci Hok) as [->|[c ->]].
    + cbn. apply IH. right. eauto.
    + cbn. constructor. intros r. apply IH. right. eauto.
Qed.

(** The executor on a plan. For a member worker, when the planner returns
    a plan that is not empty, [redistribute_local_tensor] raises nothing of
    its own in the backward direction, nor in the forward direction when
    the target has no partial placement: whatever the external calls
    return, it ends in a return. *)
Theorem executor_raises_nothing (local_tensor : tensor)
    (current_spec target_spec : DTensorSpec) (c : list Z)
    (steps : list _TransformInfo) (async_op is_backward : bool) :
  mesh current_spec = mesh target_spec →
  get_coordinate (mesh current_spec) = Some c →
  in_mesh (mesh current_spec) c →
  _gen_transform_infos current_spec target_spec = Ok steps →
  steps ≠ [] →
  is_backward = true
  ∨ Forall (fun p => is_partial p = false) (placements target_spec) →
  never_throws
    (redistribute_local_tensor is_async local_tensor current_spec target_spec
       async_op is_backward).
Proof.
  intros Hmesh Hc Hin Hgen Hne Hdir.
  unfold redistribute_local_tensor.
  rewrite bool_decide_eq_false_2 by (intros H; exact (H Hmesh)).
  cbn zeta. rewrite Hc, Hgen. cbn [lift].
  change (Ret steps ≫= ?f) with (f steps). cbn beta.
  apply loop_then_never_throws; [| |now left].
  { intros r. destruct (negb async_op && is_async r); repeat constructor. }
  assert (Hrange : ∀ t, 0 ≤ mesh_dim t < ndim (mesh current_spec) →
            (∃ n, size (mesh current_spec) (mesh_dim t) = Ok n)
            ∧ (∃ ci, py_index c (mesh_dim t) = Ok ci)).
  { intros t Hr. unfold ndim in Hr.
    pose proof (Forall2_length _ _ _ Hin) as Hlen.
    destruct (lookup_lt_is_Some_2 (mesh_shape (mesh current_spec))
                (Z.to_nat (mesh_dim t))) as [n Hn]; [lia|].
    destruct (lookup_lt_is_Some_2 c (Z.to_nat (mesh_dim t)))
      as [ci Hci]; [lia|].
    unfold size. rewrite <- (Z2Nat.id (mesh_dim t)) by lia.
    rewrite (py_index_lookup _ _ _ Hn), (py_index_lookup _ _ _ Hci). eauto. }
  assert (Htarget : ∀ t,
            (src_dst_placements t).2 = Replicate
            ∨ py_index (placements target_spec) (mesh_dim t)
              = Ok (src_dst_placements t).2 →
            ¬ (is_backward = false
               ∧ is_shard (src_dst_placements t).1 = true
               ∧ is_partial (src_dst_placements t).2 = true)).
  { intros t Hto (Hb & _ & Hp).
    destruct Hdir as [->|Hnp]; [discriminate|].
    destruct Hto as [Hto|Hto]; [rewrite Hto in Hp; discriminate|].
    apply py_index_elem_of in Hto. rewrite Forall_forall in Hnp.
    rewrite (Hnp _ Hto) in Hp. discriminate. }
  destruct (decide (ndim (mesh current_spec) = 1)) as [H1|H1].
  - destruct (gen_one_dim _ _ _ Hgen H1) as (src0 & dst0 & _ & Hd & ->).
    constructor; [|constructor].
    destruct (Hrange {| mesh_dim := 0; src_dst_placements := (src0, dst0);
                        logical_shape := shape (tensor_meta current_spec) |})
      as [Hs Hci]; [cbn; lia|].
    split; [exact Hs|]. split; [exact Hci|]. apply Htarget. now right.
  - destruct (gen_steps_of_passes _ _ _ Hgen H1)
      as (c' & shapes & steps1 & steps2 & _ & _ & -> & (_ & _ & H1s)
          & (_ & _ & H2s)).
    apply Forall_app. split; (eapply Forall_impl; [eassumption|]);
      intros t (Hr & _ & Hto & _); destruct (Hrange t Hr) as [Hs Hci];
      (split; [exact Hs|]); (split; [exact Hci|]); apply Htarget;
      destruct Hto as [[_ Hto]|Hto]; auto.
Qed.

(** [Redistribute.backward] has no guard for equal placements. When the
    gradient comes with the placements that forward saved (as after a
    forward that changed nothing), on a mesh of two or more dimensions a
    member worker gets the AssertionError "redistribute failed!" from
    [backward], where [forward] had returned without touching the
    executor. *)
Theorem backward_same_placements_raises (ctx : Ctx)
    (grad_output : DTensor tensor) (c : list Z) :
  mesh (_spec grad_output) = mesh (ctx_current_spec ctx) →
  placements (_spec grad_output) = placements (ctx_current_spec ctx) →
  get_coordinate (mesh (_spec grad_output)) = Some c →
  in_mesh (mesh (_spec grad_output)) c →
  spec_wf (_spec grad_output) →
  2 ≤ ndim (mesh (_spec grad_output)) →
  Redistribute_backward is_async ctx grad_output
  = Throw (AssertionError (Some "redistribute failed!")).
Proof.
  intros Hmesh Hsame Hc Hin Hwf Hnd.
  unfold Redistribute_backward, redistribute_local_tensor. cbn zeta.
  rewrite bool_decide_eq_false_2 by (intros H; exact (H Hmesh)).
  rewrite Hc.
  rewrite (gen_same_placements_multi_dim _ _ c Hc Hin Hwf Hsame) by lia.
  reflexivity.
Qed.

(** [Redistribute.forward] towards other placements on another mesh
    raises NotImplementedError before any call, for members of the mesh
    and for the others alike. *)
Theorem forward_cross_mesh_raises (input : DTensor tensor)
    (device_mesh : DeviceMesh) (placements' : list Placement)
    (async_op : bool) :
  mesh (_spec input) ≠ device_mesh →
  placements (_spec input) ≠ placements' →
  Redistribute_forward is_async input device_mesh placements' async_op
  = Throw NotImplementedError.
Proof.
  intros Hmesh Hpl. unfold Redistribute_forward, redistribute_local_tensor.
  cbn zeta. rewrite (bool_decide_eq_true_2 _ Hpl). cbn.
  now rewrite (bool_decide_eq_true_2 _ Hmesh).
Qed.
End ExecutorRaises.

(** ** Sources without shards *)

Lemma direct_triples_same ps : ∀ i, direct_triples i ps ps = [].
Proof.
  induction ps as [|p ps IH]; intros i; cbn; [reflexivity|].
  rewrite bool_decide_eq_false_2 by (intros H; now apply H). apply IH.
Qed.

Lemma num_shards_from_no_shard m (ps : list Placement) : ∀ i acc,
  Forall (fun p => is_shard p = false) ps →
  num_shards_from m (enumerate_from i ps) acc = Ok acc.
Proof.
  induction ps as [|p ps IH]; intros i acc Hps; cbn; [reflexivity|].
  apply Forall_cons in Hps as [-> Hps]. now apply IH.
Qed.

(** The outer-to-inner pass over a stretch of [cur] without shards: every
    visit is reshardable, and the steps are those of the direct plan. *)
Lemma outer_to_inner_direct mesh_ndim shapes (s : list Placement) :
  ∀ (t pre : list Placement) infos,
    length s = length t →
    Forall (fun p => is_shard p = false) s →
    Z.of_nat (length (pre ++ t)) = mesh_ndim →
    (length (pre ++ t) ≤ length shapes)%nat →
    ∃ infos',
      search_transform_infos (pre ++ s) (pre ++ t) (Z.of_nat (length pre))
        mesh_ndim shapes infos true = Ok (pre ++ t, infos')
      ∧ map step_triple infos'
        = map step_triple infos
          ++ direct_triples (Z.of_nat (length pre)) s t.
Proof.
  induction s as [|p s IH]; intros t pre infos Hlen Hs Hnd Hshapes.
  { destruct t; [|discriminate]. exists infos.
    rewrite search_same_placements. split; [reflexivity|].
    cbn. now rewrite app_nil_r. }
  destruct t as [|q t]; [discriminate|].
  destruct (decide (pre ++ p :: s = pre ++ q :: t)) as [Heq|Hne].
  { exists infos. rewrite Heq, search_same_placements.
    split; [reflexivity|].
    apply app_inv_head in Heq. rewrite Heq, direct_triples_same.
    now rewrite app_nil_r. }
  apply Forall_cons in Hs as [Hp Hs].
  rewrite length_app in Hnd, Hshapes. cbn [length] in Hnd, Hshapes, Hlen.
  destruct (search_visit (pre ++ p :: s) (pre ++ q :: t) (length pre)
              mesh_ndim shapes infos true p q Hne ltac:(lia)
              (list_lookup_middle _ _ _ _ eq_refl)
              (list_lookup_middle _ _ _ _ eq_refl) ltac:(lia))
    as (b & shp & _ & _ & Hiff & ->).
  assert (b = true) as ->.
  { apply Hiff. split.
    - intros Houter. apply outer_nested_shard_iff in Houter
        as (d & j & _ & Hk & _).
      rewrite list_lookup_middle in Hk by reflexivity.
      injection Hk as ->. discriminate.
    - intros d' _ j Hj. now rewrite !lookup_app_l by lia. }
  replace (<[length pre := q]> (pre ++ p :: s)) with ((pre ++ [q]) ++ s).
  2: { rewrite insert_app_r_alt, Nat.sub_diag by lia. cbn.
       now rewrite <- app_assoc. }
  replace (pre ++ q :: t) with ((pre ++ [q]) ++ t)
    by now rewrite <- app_assoc.
  replace (Z.of_nat (length pre) + 1) with (Z.of_nat (length (pre ++ [q])))
    by (rewrite length_app; cbn; lia).
  edestruct (IH t (pre ++ [q])) as (infos' & -> & Hmap);
    [lia|exact Hs|rewrite !length_app; cbn; lia
    |rewrite !length_app; cbn; lia|].
  eexists. split; [reflexivity|]. rewrite Hmap.
  cbn [direct_triples]. rewrite length_app. cbn [length].
  replace (Z.of_nat (length pre + 1)) with (Z.of_nat (length pre) + 1) by lia.
  case_bool_decide; [|reflexivity].
  rewrite map_app. cbn. now rewrite <- app_assoc.
Qed.

(** From a source without shards (replicated or partial on every mesh
    dim) the plan on a mesh that is not 1-dimensional is the direct one:
    exactly one step [(i, src[i], dst[i])] per mesh dim where the two
    specs differ, outermost first, and nothing else. *)
Theorem direct_plan_without_shards (src_spec dst_spec : DTensorSpec)
    (c : list Z) :
  mesh src_spec = mesh dst_spec →
  spec_wf src_spec →
  spec_wf dst_spec →
  get_coordinate (mesh src_spec) = Some c →
  in_mesh (mesh src_spec) c →
  ndim (mesh src_spec) ≠ 1 →
  Forall (fun p => is_shard p = false) (placements src_spec) →
  plan_triples (_gen_transform_infos src_spec dst_spec)
  = Ok (direct_triples 0 (placements src_spec) (placements dst_spec)).
Proof.
  intros Hmesh Hwf Hwf' Hc Hin H1 Hns.
  destruct (gen_setup _ _ _ Hmesh Hwf Hwf' Hc Hin)
    as (shapes & shards & Hloop & Hshapes & Hshards).
  destruct Hwf as [Hsrc _], Hwf' as [Hdst _]. rewrite <- Hmesh in Hdst.
  unfold num_shards, enumerate in Hshards.
  rewrite num_shards_from_no_shard in Hshards by assumption.
  injection Hshards as <-.
  unfold _gen_transform_infos. cbn zeta. rewrite Hc.
  rewrite (bool_decide_eq_false_2 _ H1), Hloop. cbn [mbind result_bind].
  unfold num_shards, enumerate.
  rewrite num_shards_from_no_shard by assumption. cbn [mbind result_bind].
  rewrite bool_decide_eq_false_2 by lia. cbn [mbind result_bind fst snd].
  destruct (outer_to_inner_direct (ndim (mesh src_spec)) shapes
              (placements src_spec) (placements dst_spec) [] [])
    as (infos' & Hres & Hmap); [lia|exact Hns|unfold ndim; cbn; lia
                               |exact Hshapes|].
  cbn [app length] in Hres. change (Z.of_nat 0) with 0 in Hres, Hmap.
  rewrite Hres. cbn. now rewrite Hmap.
Qed.

(** ** The exceptions of the planner *)

Lemma search_raises_runtime_error dst mesh_ndim shapes ltr (n : nat) :
  Z.of_nat (length dst) = mesh_ndim →
  (length dst ≤ length shapes)%nat →
  ∀ cur idx infos e,
    (visits_left idx mesh_ndim ltr ≤ n)%nat →
    length cur = length dst →
    search_transform_infos cur dst idx mesh_ndim shapes infos ltr = Raise e →
    e = RuntimeError.
Proof.
  intros Hnd Hshapes.
  induction n as [|n IH]; intros cur idx infos e Hn Hlen.
  all: destruct (decide (cur = dst)) as [->|Hne];
    [now rewrite search_same_placements|].
  all: destruct (decide (idx < 0 ∨ mesh_ndim ≤ idx)) as [Hout|Hin];
    [now rewrite search_out_of_range|].
  { rewrite visits_left_step in Hn by assumption. lia. }
  rewrite visits_left_step in Hn by assumption.
  assert (Hk : idx = Z.of_nat (Z.to_nat idx)) by lia.
  set (k := Z.to_nat idx) in *. clearbody k. subst idx.
  destruct (lookup_lt_is_Some_2 cur k ltac:(lia)) as [p Hp].
  destruct (lookup_lt_is_Some_2 dst k ltac:(lia)) as [q Hq].
  destruct (search_visit cur dst k mesh_ndim shapes infos ltr p q
              Hne ltac:(lia) Hp Hq ltac:(lia))
    as (b & shp & _ & _ & _ & ->).
  destruct b.
  - apply IH; [lia|now rewrite length_insert].
  - destruct ltr; [congruence|].
    apply IH; [lia|now rewrite length_insert].
Qed.

(** For well-formed specs on the mesh of a member worker the planner has
    one exception only: the RuntimeError of the outer-to-inner pass. No
    list access goes out of range, no assertion fails, and the
    inner-to-outer pass raises nothing. *)
Theorem planner_raises_runtime_error_only (src_spec dst_spec : DTensorSpec)
    (c : list Z) (e : exn) :
  mesh src_spec = mesh dst_spec →
  spec_wf src_spec →
  spec_wf dst_spec →
  get_coordinate (mesh src_spec) = Some c →
  in_mesh (mesh src_spec) c →
  _gen_transform_infos src_spec dst_spec = Raise e →
  e = RuntimeError.
Proof.
  intros Hmesh Hwf Hwf' Hc Hin.
  destruct (gen_setup _ _ _ Hmesh Hwf Hwf' Hc Hin)
    as (shapes & shards & Hloop & Hshapes & Hshards).
  destruct Hwf as [Hsrc _], Hwf' as [Hdst _]. rewrite <- Hmesh in Hdst.
  unfold _gen_transform_infos. cbn zeta. rewrite Hc.
  case_bool_decide as H1.
  - unfold ndim in H1.
    destruct (placements src_spec) as [|p [|p' ps]]; cbn in Hsrc; try lia.
    destruct (placements dst_spec) as [|q [|q' qs]]; cbn in Hdst; try lia.
    discriminate.
  - rewrite Hloop, Hshards. cbn [mbind result_bind].
    assert (Hnd : Z.of_nat (length (placements dst_spec))
                  = ndim (mesh src_spec)) by (unfold ndim; lia).
    set (first_pass := if bool_decide (1 < shards) then _ else _).
    destruct first_pass as [[cur1 infos1]|e1] eqn:Hfirst;
      cbn [mbind result_bind fst snd].
    + assert (Hlen1 : length cur1 = length (placements dst_spec)).
      { subst first_pass. case_bool_decide.
        - apply search_length in Hfirst. lia.
        - injection Hfirst as <- <-. lia. }
      destruct (search_transform_infos cur1 _ 0 _ _ _ true)
        as [st|e2] eqn:Hsecond; cbn [mbind result_bind]; [discriminate|].
      intros [= <-].
      eapply search_raises_runtime_error in Hsecond; eauto.
    + intros [= <-]. subst first_pass.
      case_bool_decide; [|discriminate].
      eapply search_raises_runtime_error in Hfirst; eauto. lia.
Qed.

(** ** The further properties on concrete inputs *)

Ltac solve_spec_wf :=
  split; [reflexivity|]; cbn;
  repeat first
    [ apply List.Forall_nil
    | apply List.Forall_cons;
      [first [discriminate | intros ? [= <-]; lia]|] ].

Lemma unit_mesh_spec_wf_nested : spec_wf (unit_mesh_spec [Shard 0; Shard 0]).
Proof. solve_spec_wf. Defined.

Lemma unit_mesh_spec_wf_replicated :
  spec_wf (unit_mesh_spec [Replicate; Replicate]).
Proof. solve_spec_wf. Defined.

Lemma in_unit_mesh : in_mesh (mk_mesh [1; 1] (Some [0; 0])) [0; 0].
Proof.
  unfold in_mesh. cbn.
  constructor; [lia|]. constructor; [lia|]. constructor.
Defined.

Lemma S3_plan_is_plan :
  _gen_transform_infos (S3_src [1; 0]) (S3_dst [1; 0]) = Ok S3_plan.
Proof. vm_compute. reflexivity. Defined.

(** The steps of the plan of scenario S3 are on mesh dims 0 and 1. *)
Lemma plan_mesh_dims_in_range_witness :
  Forall (fun t => 0 ≤ mesh_dim t < ndim (mesh (S3_src [1; 0]))
                   ∧ ∃ n, size (mesh (S3_src [1; 0])) (mesh_dim t) = Ok n)
    S3_plan.
Proof.
  exact (plan_mesh_dims_in_range (S3_src [1; 0]) (S3_dst [1; 0]) S3_plan
           S3_plan_is_plan).
Defined.

(** The plan of scenario S3: mesh dims 1, 0 from inside out, then 1. *)
Lemma plan_two_monotone_runs_witness :
  (∃ steps1 steps2,
     S3_plan = steps1 ++ steps2
     ∧ StronglySorted Z.gt (map mesh_dim steps1)
     ∧ StronglySorted Z.lt (map mesh_dim steps2))
  ∧ Z.of_nat (length S3_plan) ≤ 2 * ndim (mesh (S3_src [1; 0])).
Proof.
  exact (plan_two_monotone_runs (S3_src [1; 0]) (S3_dst [1; 0]) S3_plan
           S3_plan_is_plan).
Defined.

(** The targets of the plan of scenario S3. *)
Lemma plan_targets_witness :
  Forall (fun t => (src_dst_placements t).2 = Replicate
                   ∨ py_index (placements (S3_dst [1; 0])) (mesh_dim t)
                     = Ok (src_dst_placements t).2) S3_plan.
Proof.
  exact (plan_targets (S3_src [1; 0]) (S3_dst [1; 0]) S3_plan
           S3_plan_is_plan).
Defined.

(** The logical shapes of the plan of scenario S3 have rank 2. *)
Lemma plan_logical_shapes_witness :
  Forall (fun t =>
            length (logical_shape t)
            = length (shape (tensor_meta (S3_src [1; 0])))
            ∧ (mesh_dim t = 0 →
               logical_shape t = shape (tensor_meta (S3_src [1; 0]))))
    S3_plan.
Proof.
  exact (plan_logical_shapes (S3_src [1; 0]) (S3_dst [1; 0]) S3_plan
           S3_plan_is_plan).
Defined.

(** Scenario S3 has four shards: the planner returns. *)
Lemma planner_returns_witness :
  ∃ steps, _gen_transform_infos (S3_src [1; 0]) (S3_dst [1; 0]) = Ok steps.
Proof.
  apply (planner_returns (S3_src [1; 0]) (S3_dst [1; 0]) [1; 0]);
    [reflexivity|apply S3_src_wf|apply S3_dst_wf|reflexivity
    |apply in_mesh_2x2; lia|].
  right. left. exists 4. split; [reflexivity|lia].
Defined.

(** On a 1x1 mesh, [(Shard 0, Shard 0) -> (Replicate, Replicate)] is
    refused. *)
Lemma planner_raises_on_uncleared_nesting_witness :
  _gen_transform_infos (unit_mesh_spec [Shard 0; Shard 0])
    (unit_mesh_spec [Replicate; Replicate]) = Raise RuntimeError.
Proof.
  apply (planner_raises_on_uncleared_nesting
           (unit_mesh_spec [Shard 0; Shard 0])
           (unit_mesh_spec [Replicate; Replicate])
           [0; 0] 1 0%nat 1%nat 0%nat 0);
    [reflexivity|apply unit_mesh_spec_wf_nested
    |apply unit_mesh_spec_wf_replicated|reflexivity|apply in_unit_mesh
    |reflexivity|lia|lia|reflexivity|reflexivity|lia|discriminate].
Defined.

(** The inner-to-outer pass of scenario S3 leaves a tuple without nested
    shards. *)
Lemma inner_to_outer_pass_clears_nesting_witness :
  ∃ cur1 infos1,
    search_transform_infos [Shard 0; Shard 0] [Replicate; Shard 0] 1 2
      [[4; 4]; [2; 4]] [] false = Ok (cur1, infos1)
    ∧ (cur1 = [Replicate; Shard 0] ∨ no_nested_shard cur1).
Proof.
  apply (inner_to_outer_pass_clears_nesting [Shard 0; Shard 0]
           [Replicate; Shard 0] [[4; 4]; [2; 4]] []);
    [reflexivity|cbn; lia].
Defined.


(** The forward executor on scenario S3 raises nothing of its own. *)
Lemma executor_raises_nothing_witness :
  never_throws
    (redistribute_local_tensor (fun _ : nat => false) 7%nat
       (S3_src [1; 0]) (S3_dst [1; 0]) false false).
Proof.
  apply (executor_raises_nothing (fun _ : nat => false) 7%nat
           (S3_src [1; 0]) (S3_dst [1; 0]) [1; 0] S3_plan false false);
    [reflexivity|reflexivity|apply in_mesh_2x2; lia|exact S3_plan_is_plan
    |discriminate|].
  right. cbn. repeat (apply List.Forall_cons; [reflexivity|]).
  apply List.Forall_nil.
Defined.

Lemma spec_2x2_wf_nested : spec_wf (spec_2x2 [Shard 0; Shard 0]).
Proof. solve_spec_wf. Defined.

(** Backward of a gradient that already has the saved placements, on the
    2x2 mesh. *)
Lemma backward_same_placements_raises_witness :
  Redistribute_backward (fun _ : nat => false)
    {| ctx_current_spec := spec_2x2 [Shard 0; Shard 0];
       ctx_async_op := false |}
    (dtensor_2x2 [Shard 0; Shard 0])
  = Throw (AssertionError (Some "redistribute failed!")).
Proof.
  apply (backward_same_placements_raises (fun _ : nat => false)
           {| ctx_current_spec := spec_2x2 [Shard 0; Shard 0];
              ctx_async_op := false |}
           (dtensor_2x2 [Shard 0; Shard 0]) [0; 1]);
    [reflexivity|reflexivity|reflexivity|apply in_mesh_2x2; lia
    |apply spec_2x2_wf_nested|vm_compute; discriminate].
Defined.

(** Forward from the 2x2 mesh to a mesh of four workers in a row. *)
Lemma forward_cross_mesh_raises_witness :
  Redistribute_forward (fun _ : nat => false)
    (dtensor_2x2 [Shard 0; Shard 0]) (mk_mesh [4] (Some [1])) [Replicate]
    false
  = Throw NotImplementedError.
Proof.
  apply (forward_cross_mesh_raises (fun _ : nat => false)
           (dtensor_2x2 [Shard 0; Shard 0]) (mk_mesh [4] (Some [1]))
           [Replicate] false); discriminate.
Defined.

Lemma spec_2x2_wf_no_shard : spec_wf (spec_2x2 [Replicate; Partial op_sum]).
Proof. solve_spec_wf. Defined.

Lemma spec_2x2_wf_target : spec_wf (spec_2x2 [Shard 0; Replicate]).
Proof. solve_spec_wf. Defined.

(** [(Replicate, Partial) -> (Shard 0, Replicate)] on the 2x2 mesh: a
    local slice on mesh dim 0, then a reduction on mesh dim 1. *)
Lemma direct_plan_without_shards_witness :
  plan_triples (_gen_transform_infos (spec_2x2 [Replicate; Partial op_sum])
                  (spec_2x2 [Shard 0; Replicate]))
  = Ok [(0, Replicate, Shard 0); (1, Partial op_sum, Replicate)].
Proof.
  apply (direct_plan_without_shards (spec_2x2 [Replicate; Partial op_sum])
           (spec_2x2 [Shard 0; Replicate]) [0; 1]);
    [reflexivity|apply spec_2x2_wf_no_shard|apply spec_2x2_wf_target
    |reflexivity|apply in_mesh_2x2; lia|vm_compute; discriminate|].
  cbn. repeat (apply List.Forall_cons; [reflexivity|]).
  apply List.Forall_nil.
Defined.

(** The exception of the 1x1 mesh is the RuntimeError. *)
Lemma planner_raises_runtime_error_only_witness :
  ∃ e, _gen_transform_infos (unit_mesh_spec [Shard 0; Shard 0])
         (unit_mesh_spec [Replicate; Replicate]) = Raise e
       ∧ e = RuntimeError.
Proof.
  exists RuntimeError. split; [vm_compute; reflexivity|].
  apply (planner_raises_runtime_error_only
           (unit_mesh_spec [Shard 0; Shard 0])
           (unit_mesh_spec [Replicate; Replicate]) [0; 0] RuntimeError);
    [reflexivity|apply unit_mesh_spec_wf_nested
    |apply unit_mesh_spec_wf_replicated|reflexivity|apply in_unit_mesh
    |vm_compute; reflexivity].
Defined.

